(** * TVL aggregation service: fetch, cache, transform, aggregate

    A shallow embedding of [app.py].  The service keeps two process-wide
    dictionaries ([tvl_cache], [cache_time]), asks an upstream HTTP API for
    the TVL series of a chain, reshapes the series with pandas and answers
    three endpoints.

    Conventions of the model:
    - Python floats ([time.time()], a float64 [tvl] column) are IEEE
      binary64 values, here Rocq's primitive floats.  A JSON integer is a
      Python [int]; the model holds those that fit a signed 64-bit word,
      and a [tvl] column made of integers only keeps them, as [int64].
    - The two dictionaries and a log of the upstream requests issued so
      far form the [World]; every function that touches them passes the
      world explicitly.  What [time.time()] and [requests.get] would
      answer is an argument of the call.
    - pandas, requests and the list sort of Python are not part of the
      repository.  The operations used from them are the fields of the
      class [Runtime], with the part of their documented contract that the
      proofs rely on; [reference_runtime] is an executable instance. *)

From Stdlib Require Import Floats ZArith Uint63 Sorted Permutation Lia.
From Stdlib Require Import OrderedTypeEx.
From stdpp Require Import gmap strings list option sorting.

Local Open Scope Z_scope.

(** ** Data model *)

(** A signed 64-bit integer, the value of an [np.int64]. *)
Definition in_int64 (n : Z) : bool :=
  (-9223372036854775808 <=? n) && (n <=? 9223372036854775807).

Record Int64 := { int64_val : Z; int64_ok : Is_true (in_int64 int64_val) }.

Definition int64_zero : Int64 := {| int64_val := 0; int64_ok := I |}.

(** The integer [n] as an [Int64], when it fits. *)
Definition to_int64 (n : Z) : option Int64 :=
  match decide (Is_true (in_int64 n)) with
  | left fits => Some {| int64_val := n; int64_ok := fits |}
  | right _ => None
  end.

(** [n] reduced modulo 2^64 into the signed range. *)
Definition wrap (n : Z) : Z :=
  (n + 9223372036854775808) mod 18446744073709551616 - 9223372036854775808.

(** The [np.int64] an operation yields when its exact result is [n]:
    the arithmetic wraps around.  [wrap n] always fits. *)
Definition int64_of_Z (n : Z) : Int64 :=
  default int64_zero (to_int64 (wrap n)).

(** [a - b] on two [np.int64]. *)
Definition int64_sub (a b : Int64) : Int64 :=
  int64_of_Z (int64_val a - int64_val b).

(** [float(n)] for an [np.int64]: the nearest binary64 value, ties to
    even. *)
Definition float_of_int64 (n : Int64) : float :=
  let z := int64_val n in
  if 0 <=? z then of_uint63 (Uint63.of_Z z)
  else if z =? -9223372036854775808 then (-9223372036854775808)%float
  else (- of_uint63 (Uint63.of_Z (- z)))%float.

(** The [tvl] field of an upstream record: a JSON number written with a
    fraction or an exponent (a Python [float]), a JSON integer (a Python
    [int]), a JSON string or [null]. *)
Inductive RawTvl :=
| TvlNumber (x : float)
| TvlInteger (n : Int64)
| TvlText (s : string)
| TvlNull.

(** One upstream record [{date: unix_seconds, tvl: ...}]. *)
Record RawPoint := { raw_date : Z; raw_tvl : RawTvl }.

(** The body of a successful upstream answer: a JSON array of records. *)
Definition Payload := list RawPoint.

(** A value of the [tvl] column: an [np.int64] or an [np.float64]. *)
Inductive Scalar :=
| IntVal (n : Int64)
| FloatVal (x : float).

(** [float(v)] for a value of the column. *)
Definition to_float (v : Scalar) : float :=
  match v with
  | IntVal n => float_of_int64 n
  | FloatVal x => x
  end.

(** A row of the DataFrame built by [process_tvl_data]: the columns
    [date_time], [date] (overwritten with the formatted day), [chain] and
    [tvl]. *)
Record Row := {
  date_time : Z;
  date : string;
  chain : string;
  tvl_value : Scalar
}.

(** [float(row['tvl'])], the form in which every answer carries a [tvl]. *)
Definition tvl (r : Row) : float := to_float (tvl_value r).

(** A row of [df[['date', 'tvl']]] with its [tvl] passed through [float],
    the shape of a history entry. *)
Record TvlPoint := { p_date : string; p_tvl : float }.

(** A row of [df[['chain', 'date', 'tvl']]], its [tvl] read as a float. *)
Record CsvRow := { c_chain : string; c_date : string; c_tvl : float }.

Record ChainSummary := {
  s_chain : string;
  latest_date : string;
  s_tvl : float;
  tvl_change_24h : float;
  tvl_percent_change_24h : float;
  history : list TvlPoint
}.

(** What an endpoint sends back. *)
Inductive Body :=
| ErrorBody (error : string)
| SummaryBody (s : ChainSummary)
| AllBody (timestamp : string) (total_tvl : float) (chains : list ChainSummary)
| CsvBody (rows : list CsvRow)
| UnhandledException.

Record HttpResponse := { status_code : Z; body : Body }.

(** What [requests.get] meets: the call raises, or a response arrives with
    a status code and a body; [None] is a body on which [response.json()]
    raises.  A body that parses is an array of records, the shape upstream
    answers with; any other JSON value ([null], an object, a number) is
    outside the model. *)
Inductive Upstream :=
| ConnectionError
| HttpReply (status : Z) (json : option Payload).

(** The process-wide state: the two dictionaries of the module and, as a
    ghost field, the URLs requested from upstream, most recent first. *)
Record World := {
  tvl_cache : gmap string Payload;
  cache_time : gmap string float;
  upstream_calls : list string
}.

Definition CHAINS : list string :=
  [ "Ethereum"; "Solana"; "Near"; "Bitcoin"; "Sui";
    "Aptos"; "Arbitrum"; "Sei"; "Base"; "BSC";
    "Polygon"; "Optimism"; "Fantom"; "Avalanche"; "Celo" ]%string.

Definition API_URL_TEMPLATE (chain_id : string) : string :=
  ("https://tvl-defillama-service-1094890588015.us-central1.run.app/tvl/"
     +:+ chain_id)%string.

(** ** Library operations *)

(** [take_rows l idx]: the rows of [l] at the positions [idx], as
    [DataFrame.take] does after an argsort. *)
Definition take_rows {A} (l : list A) (idx : list nat) : list A :=
  omap (λ i, l !! i) idx.

Definition date_desc (a b : string) : Prop := String.leb b a = true.
Definition float_desc (a b : float) : Prop := (b <=? a)%float = true.

Class Runtime := {
  (** [pd.to_datetime(_, unit='s')] on one value; [None] when it raises. *)
  to_datetime : Z → option Z;
  (** [.dt.strftime('%Y-%m-%d')]. *)
  strftime_ymd : Z → string;
  (** The numeric reading of a string by [pd.to_numeric]: an integer when
      the string is one that fits [int64], a float for any other number,
      [None] when the string is not numeric. *)
  str_to_number : string → option Scalar;
  (** The row order computed by [sort_values(col, ascending=False)] from
      the key column. *)
  argsort_desc : list string → list nat;
  argsort_desc_perm : ∀ ks, argsort_desc ks ≡ₚ seq 0 (length ks);
  argsort_desc_sorted : ∀ ks, Sorted date_desc (take_rows ks (argsort_desc ks));
  (** The row order computed by [sort_values(['chain', 'date'])]. *)
  lexsort : list (string * string) → list nat;
  (** The order computed by [list.sort(key=..., reverse=True)] from the
      keys.  Python promises a sorted result when the keys are totally
      ordered by [<], which floats are when none is NaN. *)
  list_sort_reverse : list float → list nat;
  list_sort_reverse_perm : ∀ ks, list_sort_reverse ks ≡ₚ seq 0 (length ks);
  list_sort_reverse_sorted : ∀ ks,
    Forall (λ k, is_nan k = false) ks →
    Sorted float_desc (take_rows ks (list_sort_reverse ks))
}.

Section Service.
Context `{Runtime}.

(** [df.sort_values(col, ascending=False)] for a string column [col]. *)
Definition sort_values {A} (col : A → string) (df : list A) : list A :=
  take_rows df (argsort_desc (col <$> df)).

(** [results.sort(key=lambda x: x['tvl'], reverse=True)]. *)
Definition sort_by_tvl_reverse (results : list ChainSummary) : list ChainSummary :=
  take_rows results (list_sort_reverse (s_tvl <$> results)).

(** The reading of a string as a float; an integer reading is converted. *)
Definition str_to_float (s : string) : option float :=
  to_float <$> str_to_number s.

(** What [pd.to_numeric(_, errors='coerce')] reads one value as: a number
    stays what it is, a text is read, and what is not numeric is NaN. *)
Definition numeric_value (v : RawTvl) : Scalar :=
  match v with
  | TvlNumber x => FloatVal x
  | TvlInteger n => IntVal n
  | TvlText s => default (FloatVal nan) (str_to_number s)
  | TvlNull => FloatVal nan
  end.

(** That reading as a float. *)
Definition to_numeric (v : RawTvl) : float := to_float (numeric_value v).

Definition is_integer (v : Scalar) : bool :=
  match v with
  | IntVal _ => true
  | FloatVal _ => false
  end.

(** The dtype of the [tvl] column after line 92: [int64] when every value
    reads as an integer, [float64] as soon as one does not (a float, a
    text that is not an integer, [null]). *)
Definition integer_column (data : Payload) : bool :=
  forallb (λ p, is_integer (numeric_value (raw_tvl p))) data.

(** The value the column holds for a raw value: its reading in an [int64]
    column, that reading as a float in a [float64] column. *)
Definition frame_value (int64_dtype : bool) (v : RawTvl) : Scalar :=
  if int64_dtype then numeric_value v else FloatVal (to_numeric v).

(** ** Fetcher *)

(** The cache test of [fetch_tvl_data]:
    [chain_id in cache_time and current_time - cache_time[chain_id] < 3600]. *)
Definition cache_fresh (w : World) (chain_id : string) (current_time : float) : bool :=
  match cache_time w !! chain_id with
  | Some fetched_at => (current_time - fetched_at <? 3600)%float
  | None => false
  end.

(** [response.raise_for_status()] raises on the 4xx and 5xx codes. *)
Definition raises_for_status (status : Z) : bool :=
  (400 <=? status) && (status <? 600).

Definition log_call (chain_id : string) (w : World) : World :=
  {| tvl_cache := tvl_cache w;
     cache_time := cache_time w;
     upstream_calls := API_URL_TEMPLATE chain_id :: upstream_calls w |}.

Definition store (chain_id : string) (data : Payload) (current_time : float)
    (w : World) : World :=
  {| tvl_cache := <[chain_id := data]> (tvl_cache w);
     cache_time := <[chain_id := current_time]> (cache_time w);
     upstream_calls := upstream_calls w |}.

(** [fetch_tvl_data(chain_id)] when the clock reads [current_time] and the
    upstream would answer [up].  Every exception ends in [return None]. *)
Definition fetch_tvl_data (current_time : float) (up : Upstream)
    (chain_id : string) (w : World) : option Payload * World :=
  if cache_fresh w chain_id current_time then (tvl_cache w !! chain_id, w)
  else
    let w := log_call chain_id w in
    match up with
    | ConnectionError => (None, w)
    | HttpReply status json =>
        if raises_for_status status then (None, w)
        else match json with
             | None => (None, w)
             | Some data => (Some data, store chain_id data current_time w)
             end
    end.

(** ** Transformer *)

(** [process_tvl_data(data, chain_id)]; [None] also stands for the
    exception branch. *)
Definition process_tvl_data (data : Payload) (chain_id : string) : option (list Row) :=
  match data with
  | [] => None
  | _ =>
      let int64_dtype := integer_column data in
      mapM (λ p,
              dt ← to_datetime (raw_date p);
              Some {| date_time := dt;
                      date := strftime_ymd dt;
                      chain := chain_id;
                      tvl_value := frame_value int64_dtype (raw_tvl p) |}) data
  end.

(** The test [if not data] on what [fetch_tvl_data] returned. *)
Definition truthy (data : option Payload) : option Payload :=
  match data with
  | Some ((_ :: _) as d) => Some d
  | _ => None
  end.

Definition select_date_tvl (df : list Row) : list TvlPoint :=
  (λ r, {| p_date := date r; p_tvl := tvl r |}) <$> df.

Definition select_chain_date_tvl (df : list Row) : list CsvRow :=
  (λ r, {| c_chain := chain r; c_date := date r; c_tvl := tvl r |}) <$> df.

(** [a - b] on two values of the column: [np.int64] subtraction wraps
    around, and an [np.int64] met by an [np.float64] is converted. *)
Definition scalar_sub (a b : Scalar) : Scalar :=
  match a, b with
  | IntVal x, IntVal y => IntVal (int64_sub x y)
  | _, _ => FloatVal (to_float a - to_float b)
  end.

(** [a / b]: true division, carried out on floats also for two
    [np.int64]. *)
Definition scalar_div (a b : Scalar) : float := (to_float a / to_float b)%float.

(** [a > 0]. *)
Definition scalar_pos (a : Scalar) : bool :=
  match a with
  | IntVal x => 0 <? int64_val x
  | FloatVal x => (0 <? x)%float
  end.

(** The 24h change of lines 117-123 (and 163-169), as the two floats of
    lines 136-137. *)
Definition change_24h (df sorted : list Row) (latest : Row) : option (float * float) :=
  if decide (1 < length df)%nat then
    yesterday ← sorted !! 1%nat;
    let change := scalar_sub (tvl_value latest) (tvl_value yesterday) in
    let percent_change :=
      if scalar_pos (tvl_value yesterday)
      then (scalar_div change (tvl_value yesterday) * 100)%float
      else 0%float in
    Some (to_float change, percent_change)
  else Some (0%float, 0%float).

(** The summary built from a non-empty frame, lines 114-139 of
    [get_tvl_for_chain] and, word for word, lines 160-186 of
    [get_all_tvl].  [None] is an [IndexError] of [iloc]. *)
Definition chain_summary (df : list Row) (chain_id : string) : option ChainSummary :=
  let sorted := sort_values date df in
  latest ← sorted !! 0%nat;
  '(change, percent_change) ← change_24h df sorted latest;
  let history_data := take 30 (sort_values p_date (select_date_tvl df)) in
  Some {| s_chain := chain_id;
          latest_date := date latest;
          s_tvl := tvl latest;
          tvl_change_24h := change;
          tvl_percent_change_24h := percent_change;
          history := history_data |}.

(** ** Aggregator *)

Definition respond (code : Z) (b : Body) : HttpResponse :=
  {| status_code := code; body := b |}.

Definition join_comma (l : list string) : string := String.concat ", " l.

(** [GET /api/tvl/<chain_id>]. *)
Definition get_tvl_for_chain (chain_id : string) (current_time : float)
    (up : Upstream) (w : World) : HttpResponse * World :=
  if negb (bool_decide (chain_id ∈ CHAINS)) then
    (respond 400 (ErrorBody ("Invalid chain ID. Supported chains: "
                               +:+ join_comma CHAINS)), w)
  else
    let '(data, w) := fetch_tvl_data current_time up chain_id w in
    match truthy data with
    | None => (respond 500 (ErrorBody ("Failed to fetch data for " +:+ chain_id)), w)
    | Some data =>
        match process_tvl_data data chain_id with
        | None | Some [] =>
            (respond 500 (ErrorBody ("Failed to process data for " +:+ chain_id)), w)
        | Some df =>
            match chain_summary df chain_id with
            | Some result => (respond 200 (SummaryBody result), w)
            | None => (respond 500 UnhandledException, w)
            end
        end
    end.

(** The frame a worker's result leads to in the two fan-out endpoints:
    [if data: df = process_tvl_data(data, chain); if df is not None and
    not df.empty: ...]. *)
Definition usable_frame (data : option Payload) (chain_id : string) : option (list Row) :=
  data ← truthy data;
  df ← process_tvl_data data chain_id;
  match df with [] => None | _ => Some df end.

(** The environment of a fan-out: for each chain, the clock reading of its
    worker and what upstream would answer it. *)
Definition Env := string → float * Upstream.

(** The loop over [as_completed] in [get_all_tvl]: [completed] is the
    order in which the futures finish, [results] and [total_tvl] are the
    two accumulators.  Each worker reads and writes the dictionaries at
    its own chain only (see [fetch_tvl_data_frame]), so the workers'
    effects are applied one chain at a time.  An exception in the body of
    the loop is caught and the chain skipped. *)
Fixpoint summaries_loop (completed : list string) (env : Env)
    (results : list ChainSummary) (total_tvl : float) (w : World)
    : list ChainSummary * float * World :=
  match completed with
  | [] => (results, total_tvl, w)
  | chain_id :: rest =>
      let '(data, w) := fetch_tvl_data (env chain_id).1 (env chain_id).2 chain_id w in
      match usable_frame data chain_id ≫= (λ df, chain_summary df chain_id) with
      | Some chain_result =>
          summaries_loop rest env (results ++ [chain_result])
            (total_tvl + s_tvl chain_result)%float w
      | None => summaries_loop rest env results total_tvl w
      end
  end.

(** [GET /api/tvl/all]; [timestamp] is [datetime.now()] formatted. *)
Definition get_all_tvl (timestamp : string) (completed : list string)
    (env : Env) (w : World) : HttpResponse * World :=
  let '(results, total_tvl, w) := summaries_loop completed env [] 0%float w in
  (respond 200 (AllBody timestamp total_tvl (sort_by_tvl_reverse results)), w).

(** The loop over [as_completed] in [get_tvl_csv]. *)
Fixpoint frames_loop (completed : list string) (env : Env)
    (all_data : list (list CsvRow)) (w : World) : list (list CsvRow) * World :=
  match completed with
  | [] => (all_data, w)
  | chain_id :: rest =>
      let '(data, w) := fetch_tvl_data (env chain_id).1 (env chain_id).2 chain_id w in
      match usable_frame data chain_id with
      | Some df => frames_loop rest env (all_data ++ [select_chain_date_tvl df]) w
      | None => frames_loop rest env all_data w
      end
  end.

(** [GET /api/tvl/csv]. *)
Definition get_tvl_csv (completed : list string) (env : Env) (w : World)
    : HttpResponse * World :=
  let '(all_data, w) := frames_loop completed env [] w in
  match all_data with
  | [] => (respond 500 (ErrorBody "No data available to export"), w)
  | _ =>
      let combined_df := concat all_data in
      let combined_df :=
        take_rows combined_df (lexsort ((λ r, (c_chain r, c_date r)) <$> combined_df)) in
      (respond 200 (CsvBody combined_df), w)
  end.

End Service.

(** ** An executable instance of the library operations

    Enough of pandas and of Python's sort to run the service on concrete
    payloads: a stable insertion sort for the three orderings, the
    proleptic Gregorian calendar for the day of a timestamp, and the
    reading of plain decimal integers. *)
Module Reference.

Section Argsort.
Context {K : Type} (before : K → K → bool).

(** Put [e] in front of the first entry that does not strictly precede
    it; entries with equal keys keep their order. *)
Fixpoint insert_entry (e : nat * K) (l : list (nat * K)) : list (nat * K) :=
  match l with
  | [] => [e]
  | h :: t => if before h.2 e.2 then h :: insert_entry e t else e :: h :: t
  end.

Definition sort_entries (l : list (nat * K)) : list (nat * K) :=
  foldr insert_entry [] l.

Definition stable_argsort (ks : list K) : list nat :=
  (sort_entries (zip (seq 0 (length ks)) ks)).*1.
End Argsort.

Definition string_gtb (a b : string) : bool := String.ltb b a.
Definition float_gtb (a b : float) : bool := (b <? a)%float.
Definition pair_ltb (a b : string * string) : bool :=
  String.ltb a.1 b.1 || (String.eqb a.1 b.1 && String.ltb a.2 b.2).

(** pandas keeps timestamps as signed 64-bit nanosecond counts. *)
Definition to_datetime (seconds : Z) : option Z :=
  if (-9223372036 <=? seconds) && (seconds <=? 9223372036)
  then Some seconds else None.

Definition digit (d : Z) : Ascii.ascii := Ascii.ascii_of_N (Z.to_N (48 + d mod 10)).

Fixpoint fixed_decimal (width : nat) (z : Z) : string :=
  match width with
  | O => ""
  | S w => fixed_decimal w (z / 10) +:+ String (digit z) ""
  end.

(** Year, month and day of a count of days since 1970-01-01. *)
Definition civil_from_days (days : Z) : Z * Z * Z :=
  let z := days + 719468 in
  let era := z / 146097 in
  let doe := z - era * 146097 in
  let yoe := (doe - doe / 1460 + doe / 36524 - doe / 146096) / 365 in
  let doy := doe - (365 * yoe + yoe / 4 - yoe / 100) in
  let mp := (5 * doy + 2) / 153 in
  let d := doy - (153 * mp + 2) / 5 + 1 in
  let m := if mp <? 10 then mp + 3 else mp - 9 in
  let y := yoe + era * 400 + (if m <=? 2 then 1 else 0) in
  (y, m, d).

Definition strftime_ymd (seconds : Z) : string :=
  let '(y, m, d) := civil_from_days (seconds / 86400) in
  fixed_decimal 4 y +:+ "-" +:+ fixed_decimal 2 m +:+ "-" +:+ fixed_decimal 2 d.

Definition digit_value (c : Ascii.ascii) : option Z :=
  let n := Z.of_N (Ascii.N_of_ascii c) in
  if (48 <=? n) && (n <=? 57) then Some (n - 48) else None.

Fixpoint read_digits (acc : Z) (s : string) : option Z :=
  match s with
  | EmptyString => Some acc
  | String c rest => d ← digit_value c; read_digits (10 * acc + d) rest
  end.

(** Decimal integers of at most fifteen digits are read; every other
    text counts as not numeric. *)
Definition str_to_number (s : string) : option Scalar :=
  if bool_decide (1 ≤ String.length s ≤ 15)%nat
  then n ← read_digits 0 s; IntVal <$> to_int64 n
  else None.

End Reference.

(** ** Notions used in the statements *)

(** What [get_tvl_for_chain] answers for a supported chain, as a function
    of what [fetch_tvl_data] returned. *)
Definition single_chain_answer `{Runtime} (chain_id : string)
    (data : option Payload) : HttpResponse :=
  match truthy data with
  | None => respond 500 (ErrorBody ("Failed to fetch data for " +:+ chain_id))
  | Some data =>
      match process_tvl_data data chain_id with
      | None | Some [] =>
          respond 500 (ErrorBody ("Failed to process data for " +:+ chain_id))
      | Some df =>
          match chain_summary df chain_id with
          | Some result => respond 200 (SummaryBody result)
          | None => respond 500 UnhandledException
          end
      end
  end.

(** Requests served one after the other by [get_tvl_for_chain]. *)
Fixpoint serve `{Runtime} (chain_id : string) (requests : list (float * Upstream))
    (w : World) : list HttpResponse * World :=
  match requests with
  | [] => ([], w)
  | (current_time, up) :: rest =>
      let '(r, w) := get_tvl_for_chain chain_id current_time up w in
      let '(rs, w) := serve chain_id rest w in
      (r :: rs, w)
  end.

(** The two dictionaries agree at one chain. *)
Definition same_entry (chain_id : string) (w w' : World) : Prop :=
  tvl_cache w !! chain_id = tvl_cache w' !! chain_id
  ∧ cache_time w !! chain_id = cache_time w' !! chain_id.

(** A raw [tvl] that [pd.to_numeric] cannot read as a number. *)
Definition malformed `{Runtime} (v : RawTvl) : Prop :=
  match v with
  | TvlNumber _ | TvlInteger _ => False
  | TvlText s => str_to_float s = None
  | TvlNull => True
  end.

(** What one chain contributes to a fan-out started in world [w]: the
    frame its worker's result leads to, and the summary built from it. *)
Definition chain_frame `{Runtime} (env : Env) (w : World) (chain_id : string)
    : option (list Row) :=
  usable_frame (fetch_tvl_data (env chain_id).1 (env chain_id).2 chain_id w).1
    chain_id.

Definition chain_outcome `{Runtime} (env : Env) (w : World) (chain_id : string)
    : option ChainSummary :=
  chain_frame env w chain_id ≫= (λ df, chain_summary df chain_id).

(** The float sum of the [tvl] fields, accumulated from 0 from left to
    right. *)
Definition sum_tvl (results : list ChainSummary) : float :=
  foldl (λ total r, (total + s_tvl r)%float) 0%float results.

Definition response_chains (r : HttpResponse) : list ChainSummary :=
  match body r with
  | AllBody _ _ chains => chains
  | _ => []
  end.

(** ** Concrete payloads and environments *)

Definition empty_world : World :=
  {| tvl_cache := ∅; cache_time := ∅; upstream_calls := [] |}.

(** The payload of the specification's example: two points one day apart. *)
Definition two_days : Payload :=
  [ {| raw_date := 1000; raw_tvl := TvlText "100" |};
    {| raw_date := 86400 + 1000; raw_tvl := TvlText "110" |} ].

Definition two_days_frame : list Row :=
  [ {| date_time := 1000; date := "1970-01-01"; chain := "Ethereum";
       tvl_value := IntVal (int64_of_Z 100) |};
    {| date_time := 87400; date := "1970-01-02"; chain := "Ethereum";
       tvl_value := IntVal (int64_of_Z 110) |} ].

(** Two integers one apart, the earlier one 2^53: the later one is not a
    binary64 value. *)
Definition large_integers : Payload :=
  [ {| raw_date := 1000;
       raw_tvl := TvlInteger (int64_of_Z 9007199254740992) |};
    {| raw_date := 86400 + 1000;
       raw_tvl := TvlInteger (int64_of_Z 9007199254740993) |} ].

(** The two integers furthest apart that a swing of sign allows. *)
Definition distant_integers : Payload :=
  [ {| raw_date := 1000;
       raw_tvl := TvlInteger (int64_of_Z (-9223372036854775807)) |};
    {| raw_date := 86400 + 1000;
       raw_tvl := TvlInteger (int64_of_Z 9223372036854775807) |} ].

(** A payload with a malformed value and a negative number. *)
Definition odd_values : Payload :=
  [ {| raw_date := 0; raw_tvl := TvlText "abc" |};
    {| raw_date := 86400; raw_tvl := TvlNumber (-1.5)%float |} ].

Definition odd_values_frame : list Row :=
  [ {| date_time := 0; date := "1970-01-01"; chain := "Ethereum";
       tvl_value := FloatVal nan |};
    {| date_time := 86400; date := "1970-01-02"; chain := "Ethereum";
       tvl_value := FloatVal (-1.5)%float |} ].

Definition two_days_summary : ChainSummary :=
  {| s_chain := "Ethereum";
     latest_date := "1970-01-02";
     s_tvl := 110%float;
     tvl_change_24h := 10%float;
     tvl_percent_change_24h := 10%float;
     history := [ {| p_date := "1970-01-02"; p_tvl := 110%float |};
                  {| p_date := "1970-01-01"; p_tvl := 100%float |} ] |}.

Definition one_point (x : RawTvl) : Payload :=
  [ {| raw_date := 0; raw_tvl := x |} ].

(** The summary of a chain whose payload is [one_point (TvlNumber x)]. *)
Definition one_point_summary (chain_id : string) (x : float) : ChainSummary :=
  {| s_chain := chain_id;
     latest_date := "1970-01-01";
     s_tvl := x;
     tvl_change_24h := 0%float;
     tvl_percent_change_24h := 0%float;
     history := [ {| p_date := "1970-01-01"; p_tvl := x |} ] |}.

(** Upstream is down for every chain. *)
Definition all_down : Env := λ _, (0%float, ConnectionError).

(** Two chains answer, with TVLs 250.0 and 500.0; the others are down. *)
Definition two_up : Env := λ c,
  if String.eqb c "Ethereum"
  then (0%float, HttpReply 200 (Some (one_point (TvlNumber 250%float))))
  else if String.eqb c "Solana"
  then (0%float, HttpReply 200 (Some (one_point (TvlNumber 500%float))))
  else (0%float, ConnectionError).

(** Two chains answer, one of them with [null] as its only value. *)
Definition one_null : Env := λ c,
  if String.eqb c "Ethereum"
  then (0%float, HttpReply 200 (Some (one_point (TvlNumber 1.5%float))))
  else if String.eqb c "Solana"
  then (0%float, HttpReply 200 (Some (one_point TvlNull)))
  else (0%float, ConnectionError).

(** ** The service as a transition system

    The module starts with both dictionaries empty; every request of one
    of the three routes moves the world on. *)

Inductive Request :=
| GetChain (chain_id : string) (current_time : float) (up : Upstream)
| GetAll (timestamp : string) (completed : list string) (env : Env)
| GetCsv (completed : list string) (env : Env).

(** The futures of a fan-out are one per chain of [CHAINS], so they
    complete in some rearrangement of it. *)
Definition well_formed (r : Request) : Prop :=
  match r with
  | GetChain _ _ _ => True
  | GetAll _ completed _ | GetCsv completed _ => completed ≡ₚ CHAINS
  end.

Definition handle `{Runtime} (r : Request) (w : World) : HttpResponse * World :=
  match r with
  | GetChain chain_id current_time up => get_tvl_for_chain chain_id current_time up w
  | GetAll timestamp completed env => get_all_tvl timestamp completed env w
  | GetCsv completed env => get_tvl_csv completed env w
  end.

Inductive reachable `{Runtime} : World → Prop :=
| reachable_start : reachable empty_world
| reachable_step w r : reachable w → well_formed r → reachable (handle r w).2.

(** The world left by the workers of a fan-out. *)
Definition fan_out_world (completed : list string) (env : Env) (w : World) : World :=
  foldl (λ w chain_id,
           (fetch_tvl_data (env chain_id).1 (env chain_id).2 chain_id w).2)
    w completed.

(** The upstream answer is one on which [fetch_tvl_data] returns [None]. *)
Definition upstream_fails (up : Upstream) : Prop :=
  match up with
  | ConnectionError => True
  | HttpReply status json => raises_for_status status = true ∨ json = None
  end.

(** The chains a fan-out has to ask upstream for. *)
Definition stale_chains (completed : list string) (env : Env) (w : World)
    : list string :=
  filter (λ c, cache_fresh w c (env c).1 = false) completed.

(** The chains that yield a usable frame in a fan-out. *)
Definition usable_chains `{Runtime} (completed : list string) (env : Env)
    (w : World) : list string :=
  filter (λ c, is_Some (chain_frame env w c)) completed.

Definition response_rows (r : HttpResponse) : list CsvRow :=
  match body r with
  | CsvBody rows => rows
  | _ => []
  end.

Definition supported_url (url : string) : Prop :=
  ∃ chain_id, chain_id ∈ CHAINS ∧ url = API_URL_TEMPLATE chain_id.

(** Both dictionaries hold the same chains, all of them supported, and
    every request sent upstream was for a supported chain. *)
Definition cache_invariant (w : World) : Prop :=
  (∀ c, is_Some (tvl_cache w !! c) ↔ is_Some (cache_time w !! c))
  ∧ (∀ c, is_Some (cache_time w !! c) → c ∈ CHAINS)
  ∧ Forall supported_url (upstream_calls w).

(** * Properties *)

(** ** 64-bit integers *)


Lemma wrap_small n : in_int64 n = true → wrap n = n.
Proof.
  unfold in_int64, wrap. intros [Hlo Hhi]%andb_prop.
  apply Z.leb_le in Hlo, Hhi. rewrite Z.mod_small; lia.
Qed.



(** ** Rows taken by position *)

Lemma take_rows_seq_from {A} (k l : list A) :
  omap (λ i, (k ++ l) !! i) (seq (length k) (length l)) = l.
Proof.
  revert k. induction l as [|x l IH]; intros k; [done|].
  cbn [length seq]. cbn [omap list_omap]. rewrite list_lookup_middle by done.
  f_equal. specialize (IH (k ++ [x])).
  rewrite <- app_assoc, length_app in IH. cbn in IH.
  by rewrite Nat.add_1_r in IH.
Qed.

Lemma take_rows_seq {A} (l : list A) : take_rows l (seq 0 (length l)) = l.
Proof. apply (take_rows_seq_from [] l). Qed.

Lemma take_rows_perm {A} (l : list A) idx :
  idx ≡ₚ seq 0 (length l) → take_rows l idx ≡ₚ l.
Proof.
  intros Hp. rewrite <- (take_rows_seq l) at 2.
  unfold take_rows. by rewrite Hp.
Qed.

Lemma take_rows_fmap {A B} (f : A → B) (l : list A) idx :
  f <$> take_rows l idx = take_rows (f <$> l) idx.
Proof.
  unfold take_rows. induction idx as [|i idx IH]; [done|].
  cbn [omap list_omap]. rewrite list_lookup_fmap.
  destruct (l !! i); cbn; by rewrite IH.
Qed.

Lemma take_rows_entries {A} (ks : list A) (l : list (nat * A)) :
  Forall (λ e, ks !! e.1 = Some e.2) l → take_rows ks l.*1 = l.*2.
Proof.
  unfold take_rows. induction 1 as [|e l He _ IH]; [done|].
  rewrite !fmap_cons. cbn [omap list_omap]. rewrite He. by rewrite IH.
Qed.

Lemma Sorted_refine {A} (R R' : relation A) (P : A → Prop) (l : list A) :
  (∀ a b, P a → P b → R a b → R' a b) →
  Forall P l → Sorted R l → Sorted R' l.
Proof.
  intros HR HP Hs. induction Hs as [|a l _ IH Hhd]; [constructor|].
  apply Forall_cons in HP as [Ha Hl]. constructor; [by apply IH|].
  destruct Hhd as [|b l Hab]; constructor.
  apply Forall_cons in Hl as [Hb _]. by apply HR.
Qed.

(** ** Order on floats and on strings *)

Lemma SFcompare_swap x y : SFcompare y x = CompOpp <$> SFcompare x y.
Proof.
  destruct x as [sx|sx| |sx mx ex], y as [sy|sy| |sy my ey]; simpl; try done;
    try (by destruct sx); try (by destruct sy); try (by destruct sx, sy).
  destruct sx, sy; simpl; try done;
    rewrite (Z.compare_antisym ex ey); destruct (ex ?= ey)%Z; simpl; try done;
    pose proof (Pos.compare_cont_antisym mx my Eq) as E; simpl in E; rewrite <- E;
    by destruct (Pos.compare_cont Eq mx my).
Qed.

Lemma is_nan_false_compare x y :
  is_nan x = false → is_nan y = false →
  is_Some (SFcompare (Prim2SF x) (Prim2SF y)).
Proof.
  unfold is_nan. rewrite !FloatAxioms.eqb_spec. unfold SFeqb.
  destruct (Prim2SF x), (Prim2SF y); simpl; try done; eauto.
Qed.

Lemma float_ltb_asym x y : (x <? y)%float = true → (y <? x)%float = false.
Proof.
  rewrite !FloatAxioms.ltb_spec. unfold SFltb. rewrite (SFcompare_swap (Prim2SF y)).
  by destruct (SFcompare (Prim2SF y) (Prim2SF x)) as [[]|].
Qed.

Lemma float_leb_of_not_ltb x y :
  is_nan x = false → is_nan y = false →
  (x <? y)%float = false → (y <=? x)%float = true.
Proof.
  intros Hx Hy. destruct (is_nan_false_compare x y Hx Hy) as [c Hc].
  rewrite FloatAxioms.ltb_spec, FloatAxioms.leb_spec. unfold SFltb, SFleb.
  rewrite (SFcompare_swap (Prim2SF x)), Hc. by destruct c; simpl.
Qed.

Lemma string_ltb_asym a b : String.ltb a b = true → String.ltb b a = false.
Proof.
  unfold String.ltb. rewrite (String.compare_antisym a b).
  by destruct (String.compare b a).
Qed.

Lemma string_leb_of_not_ltb a b : String.ltb a b = false → String.leb b a = true.
Proof.
  unfold String.ltb, String.leb. rewrite (String.compare_antisym a b).
  by destruct (String.compare b a).
Qed.

(** ** The insertion argsort of the executable instance *)

Section ArgsortFacts.
Context {K : Type} (before : K → K → bool).
Hypothesis before_asym : ∀ a b, before a b = true → before b a = false.

Definition not_after (a b : K) : Prop := before b a = false.

Lemma insert_entry_perm e l : Reference.insert_entry before e l ≡ₚ e :: l.
Proof.
  induction l as [|h t IH]; [done|]. cbn.
  destruct (before h.2 e.2); [|done]. rewrite IH. apply Permutation_swap.
Qed.

Lemma sort_entries_perm l : Reference.sort_entries before l ≡ₚ l.
Proof.
  induction l as [|e l IH]; [done|]. cbn.
  by rewrite insert_entry_perm, IH.
Qed.

Lemma insert_entry_sorted e l :
  Sorted (λ a b, not_after a.2 b.2) l →
  Sorted (λ a b, not_after a.2 b.2) (Reference.insert_entry before e l).
Proof.
  induction 1 as [|h t Ht IH Hhd]; cbn.
  - by repeat constructor.
  - destruct (before h.2 e.2) eqn:Hb.
    + constructor; [done|].
      destruct Hhd as [|h' t' Hh']; cbn.
      * constructor. by apply before_asym.
      * destruct (before h'.2 e.2); constructor; [done|]. by apply before_asym.
    + by repeat constructor.
Qed.

Lemma sort_entries_sorted l :
  Sorted (λ a b, not_after a.2 b.2) (Reference.sort_entries before l).
Proof.
  induction l as [|e l IH]; cbn; [constructor|]. by apply insert_entry_sorted.
Qed.

Lemma stable_argsort_perm ks :
  Reference.stable_argsort before ks ≡ₚ seq 0 (length ks).
Proof.
  unfold Reference.stable_argsort. rewrite sort_entries_perm.
  by rewrite fst_zip by (by rewrite length_seq).
Qed.

Lemma stable_argsort_rows ks :
  take_rows ks (Reference.stable_argsort before ks)
  = (Reference.sort_entries before (zip (seq 0 (length ks)) ks)).*2.
Proof.
  apply take_rows_entries. rewrite sort_entries_perm.
  apply Forall_forall. intros [i k] Hin. cbn.
  apply list_elem_of_lookup in Hin as [j Hj].
  apply lookup_zip_Some in Hj as [Hi Hk].
  apply lookup_seq in Hi as [-> _]. done.
Qed.

Lemma stable_argsort_sorted ks :
  Sorted not_after (take_rows ks (Reference.stable_argsort before ks)).
Proof.
  rewrite stable_argsort_rows.
  eapply Sorted_fmap; [|apply sort_entries_sorted]. done.
Qed.
End ArgsortFacts.

Lemma reference_argsort_desc_sorted ks :
  Sorted date_desc (take_rows ks (Reference.stable_argsort Reference.string_gtb ks)).
Proof.
  eapply (Sorted_refine _ _ (λ _, True)); [| by apply Forall_true |].
  2: { apply stable_argsort_sorted. intros a b. apply string_ltb_asym. }
  intros a b _ _. apply string_leb_of_not_ltb.
Qed.

Lemma reference_list_sort_sorted ks :
  Forall (λ k, is_nan k = false) ks →
  Sorted float_desc (take_rows ks (Reference.stable_argsort Reference.float_gtb ks)).
Proof.
  intros Hks.
  eapply (Sorted_refine _ _ (λ k, is_nan k = false)).
  - intros a b Ha Hb. by apply float_leb_of_not_ltb.
  - by rewrite take_rows_perm by apply stable_argsort_perm.
  - apply stable_argsort_sorted. intros a b. apply float_ltb_asym.
Qed.

(** The executable instance of the library operations. *)
Definition reference_runtime : Runtime :=
  Build_Runtime
    Reference.to_datetime
    Reference.strftime_ymd
    Reference.str_to_number
    (Reference.stable_argsort Reference.string_gtb)
    (stable_argsort_perm Reference.string_gtb)
    reference_argsort_desc_sorted
    (Reference.stable_argsort Reference.pair_ltb)
    (Reference.stable_argsort Reference.float_gtb)
    (stable_argsort_perm Reference.float_gtb)
    reference_list_sort_sorted.

(** ** The fetcher and its cache *)

Lemma fetch_fresh now up chain_id w :
  cache_fresh w chain_id now = true →
  fetch_tvl_data now up chain_id w = (tvl_cache w !! chain_id, w).
Proof. unfold fetch_tvl_data. by intros ->. Qed.

Lemma fetch_stale_success now status data chain_id w :
  cache_fresh w chain_id now = false →
  raises_for_status status = false →
  fetch_tvl_data now (HttpReply status (Some data)) chain_id w
  = (Some data, store chain_id data now (log_call chain_id w)).
Proof. unfold fetch_tvl_data. by intros -> ->. Qed.

Lemma cache_fresh_store chain_id data t0 w now :
  cache_fresh (store chain_id data t0 w) chain_id now = (now - t0 <? 3600)%float.
Proof. unfold cache_fresh, store. cbn. by rewrite lookup_insert_eq. Qed.

Lemma fetch_after_store now up chain_id data t0 w :
  (now - t0 <? 3600)%float = true →
  fetch_tvl_data now up chain_id (store chain_id data t0 w)
  = (Some data, store chain_id data t0 w).
Proof.
  intros Hage. rewrite fetch_fresh by by rewrite cache_fresh_store.
  cbn. by rewrite lookup_insert_eq.
Qed.

(** A fetch touches the dictionaries at its own chain only, and its result
    depends on the dictionaries at that chain only. *)
Lemma fetch_tvl_data_frame now up chain_id other w :
  chain_id ≠ other → same_entry other (fetch_tvl_data now up chain_id w).2 w.
Proof.
  intros Hne. unfold fetch_tvl_data.
  destruct (cache_fresh w chain_id now); [done|].
  destruct up as [|status [data|]]; [done| |]; destruct (raises_for_status status);
    try done.
  split; cbn; by rewrite lookup_insert_ne.
Qed.

Lemma fetch_tvl_data_local now up chain_id w w' :
  same_entry chain_id w w' →
  (fetch_tvl_data now up chain_id w).1 = (fetch_tvl_data now up chain_id w').1.
Proof.
  intros [Hc Ht]. unfold fetch_tvl_data, cache_fresh. rewrite Ht.
  destruct (cache_time w' !! chain_id) as [t|]; cbn.
  - destruct (now - t <? 3600)%float; cbn; [done|].
    destruct up as [|status [data|]]; [done| |]; by destruct (raises_for_status status).
  - destruct up as [|status [data|]]; [done| |]; by destruct (raises_for_status status).
Qed.

Section SingleChain.
Context `{Runtime}.

Lemma get_tvl_for_chain_supported chain_id now up w :
  chain_id ∈ CHAINS →
  get_tvl_for_chain chain_id now up w
  = (single_chain_answer chain_id (fetch_tvl_data now up chain_id w).1,
     (fetch_tvl_data now up chain_id w).2).
Proof.
  intros Hin. unfold get_tvl_for_chain, single_chain_answer.
  rewrite bool_decide_true by done. cbn [negb].
  destruct (fetch_tvl_data now up chain_id w) as [data w']. cbn [fst snd].
  destruct (truthy data) as [d|]; [|done].
  destruct (process_tvl_data d chain_id) as [[|r df]|]; try done.
  by destruct (chain_summary (r :: df) chain_id).
Qed.

(** C1. Cache policy of the fetcher, for a chain of the fixed set.
    (a) When an entry exists and [now - fetched_at < 3600], the fetch
    returns the cached payload and leaves the world, request log included,
    as it was.  (b) After a fetch that succeeded at [t0], two calls of the
    single-chain endpoint at times within 3600 seconds of [t0] answer
    exactly what the call at [t0] answered, whatever upstream would say;
    the three calls together issue the one upstream request of the first.
    (c) When no entry exists or the entry's age is not below 3600, the
    fetch issues an upstream request. *)
Theorem fetch_cache_policy (chain_id : string) :
  chain_id ∈ CHAINS →
  (∀ w now up fetched_at payload,
      cache_time w !! chain_id = Some fetched_at →
      tvl_cache w !! chain_id = Some payload →
      (now - fetched_at <? 3600)%float = true →
      fetch_tvl_data now up chain_id w = (Some payload, w))
  ∧ (∀ w0 t0 status data t1 up1 t2 up2 r0 w1 r1 w2 r2 w3,
      cache_fresh w0 chain_id t0 = false →
      raises_for_status status = false →
      (t1 - t0 <? 3600)%float = true →
      (t2 - t0 <? 3600)%float = true →
      get_tvl_for_chain chain_id t0 (HttpReply status (Some data)) w0 = (r0, w1) →
      get_tvl_for_chain chain_id t1 up1 w1 = (r1, w2) →
      get_tvl_for_chain chain_id t2 up2 w2 = (r2, w3) →
      r1 = r0 ∧ r2 = r1
      ∧ upstream_calls w1 = API_URL_TEMPLATE chain_id :: upstream_calls w0
      ∧ upstream_calls w3 = upstream_calls w1)
  ∧ (∀ w now up,
      (∀ fetched_at, cache_time w !! chain_id = Some fetched_at →
                     (now - fetched_at <? 3600)%float = false) →
      upstream_calls (fetch_tvl_data now up chain_id w).2
      = API_URL_TEMPLATE chain_id :: upstream_calls w).
Proof.
  intros Hin. split; [|split].
  - intros w now up t payload Ht Hp Hage.
    rewrite fetch_fresh, Hp; [done|]. unfold cache_fresh. by rewrite Ht.
  - intros w0 t0 status data t1 up1 t2 up2 r0 w1 r1 w2 r2 w3 Hstale Hok H1 H2.
    rewrite !get_tvl_for_chain_supported by done.
    rewrite fetch_stale_success by done. cbn [fst snd].
    intros [= <- <-]. rewrite fetch_after_store by done. cbn [fst snd].
    intros [= <- <-]. rewrite fetch_after_store by done. cbn [fst snd].
    by intros [= <- <-].
  - intros w now up Hstale. unfold fetch_tvl_data.
    assert (cache_fresh w chain_id now = false) as ->.
    { unfold cache_fresh. destruct (cache_time w !! chain_id) as [t|]; [|done].
      by apply Hstale. }
    destruct up as [|status [data|]]; [done| |]; by destruct (raises_for_status status).
Qed.

(** C5. A chain identifier outside the fixed set of fifteen is answered
    400 with the invalid-chain body; the world is left as it was, so no
    fetch happened and no upstream request was issued. *)
Theorem invalid_chain_rejected (chain_id : string) now up w :
  chain_id ∉ CHAINS →
  length CHAINS = 15%nat
  ∧ get_tvl_for_chain chain_id now up w
    = (respond 400
         (ErrorBody
            ("Invalid chain ID. Supported chains: Ethereum, Solana, Near, "
             +:+ "Bitcoin, Sui, Aptos, Arbitrum, Sei, Base, BSC, Polygon, "
             +:+ "Optimism, Fantom, Avalanche, Celo")),
       w).
Proof.
  intros Hout. split; [done|]. unfold get_tvl_for_chain.
  by rewrite bool_decide_false by done.
Qed.

(** C6, as the code has it.  When the fetch goes to the network and meets
    a connection error, a 4xx or 5xx status, or a body that does not
    parse, it returns [None] and both dictionaries are left as they were;
    the only trace is the logged request. *)
Theorem failed_fetch_keeps_cache (chain_id : string) now up w :
  cache_fresh w chain_id now = false →
  match up with
  | ConnectionError => True
  | HttpReply status json => 400 ≤ status < 600 ∨ json = None
  end →
  fetch_tvl_data now up chain_id w = (None, log_call chain_id w)
  ∧ tvl_cache (fetch_tvl_data now up chain_id w).2 = tvl_cache w
  ∧ cache_time (fetch_tvl_data now up chain_id w).2 = cache_time w.
Proof.
  intros Hstale Hfail. unfold fetch_tvl_data. rewrite Hstale.
  destruct up as [|status json]; [done|].
  unfold raises_for_status.
  destruct Hfail as [[Hlo Hhi]| ->].
  - apply Z.leb_le in Hlo. apply Z.ltb_lt in Hhi. by rewrite Hlo, Hhi.
  - by destruct (_ && _).
Qed.

(** C10. A 2xx answer whose body is the empty array is stored with the
    time of the fetch, yet the endpoint reports the fetch-failure error;
    every later request for the chain within the 3600-second window gets
    the same 500 from the cached empty payload, and the world, request log
    included, no longer changes. *)
Theorem empty_payload_cached_as_failure (chain_id : string) w0 t0 status :
  chain_id ∈ CHAINS →
  cache_fresh w0 chain_id t0 = false →
  200 ≤ status < 300 →
  let failed :=
    respond 500 (ErrorBody ("Failed to fetch data for " +:+ chain_id)) in
  let w1 := store chain_id [] t0 (log_call chain_id w0) in
  get_tvl_for_chain chain_id t0 (HttpReply status (Some [])) w0 = (failed, w1)
  ∧ tvl_cache w1 !! chain_id = Some []
  ∧ cache_time w1 !! chain_id = Some t0
  ∧ ∀ later : list (float * Upstream),
      Forall (λ req, (req.1 - t0 <? 3600)%float = true) later →
      serve chain_id later w1 = (replicate (length later) failed, w1).
Proof.
  intros Hin Hstale [Hlo Hhi] failed w1.
  assert (raises_for_status status = false) as Hok.
  { unfold raises_for_status. apply andb_false_iff. left. apply Z.leb_gt. lia. }
  split; [|split; [|split]].
  - rewrite get_tvl_for_chain_supported by done.
    by rewrite fetch_stale_success by done.
  - cbn. by rewrite lookup_insert_eq.
  - cbn. by rewrite lookup_insert_eq.
  - induction 1 as [|[t up] later Hage _ IH]; [done|].
    cbn [serve length replicate].
    rewrite get_tvl_for_chain_supported by done.
    unfold w1 at 1 2. rewrite fetch_after_store by done. cbn [fst snd].
    fold w1. by rewrite IH.
Qed.

End SingleChain.

(** ** The transformer *)

Lemma Sorted_take {A} (R : relation A) (l : list A) n :
  Sorted R l → Sorted R (take n l).
Proof.
  intros Hs. revert n. induction Hs as [|a l _ IH Hhd]; intros [|n]; cbn;
    try constructor; [apply IH|].
  destruct Hhd as [|b l Hab]; destruct n; cbn; by constructor.
Qed.

Lemma take_min_length {A} (l : list A) n : take n l = take (n `min` length l) l.
Proof.
  destruct (decide (n ≤ length l)%nat).
  - by rewrite Nat.min_l.
  - rewrite Nat.min_r by lia. by rewrite !take_ge by lia.
Qed.

Section Transformer.
Context `{Runtime}.

Lemma sort_values_perm {A} (col : A → string) (df : list A) :
  sort_values col df ≡ₚ df.
Proof.
  apply take_rows_perm. rewrite <- (length_fmap col). apply argsort_desc_perm.
Qed.

Lemma sort_values_length {A} (col : A → string) (df : list A) :
  length (sort_values col df) = length df.
Proof. by rewrite sort_values_perm. Qed.

Lemma sort_values_fmap {A B} (f : A → B) (col : B → string) (df : list A) :
  sort_values col (f <$> df) = f <$> sort_values (col ∘ f) df.
Proof.
  unfold sort_values. by rewrite take_rows_fmap, <- list_fmap_compose.
Qed.

Lemma sort_values_sorted {A} (col : A → string) (df : list A) :
  Sorted date_desc (col <$> sort_values col df).
Proof. unfold sort_values. rewrite take_rows_fmap. apply argsort_desc_sorted. Qed.

(** Whatever the dtype of the column, [float] of a value in it is the
    float reading of the raw value. *)
Lemma to_float_frame_value int64_dtype v :
  to_float (frame_value int64_dtype v) = to_numeric v.
Proof. by destruct int64_dtype. Qed.

Lemma process_tvl_data_rows data chain_id df :
  process_tvl_data data chain_id = Some df →
  data ≠ [] ∧ length df = length data
  ∧ Forall2 (λ p r, ∃ dt, to_datetime (raw_date p) = Some dt
                          ∧ r = {| date_time := dt; date := strftime_ymd dt;
                                   chain := chain_id;
                                   tvl_value :=
                                     frame_value (integer_column data) (raw_tvl p) |})
      data df.
Proof.
  unfold process_tvl_data. destruct data as [|p data]; [done|].
  generalize (integer_column (p :: data)). intros int64_dtype.
  intros Hm. split; [done|]. split; [symmetry; by eapply length_mapM|].
  apply mapM_Some_1 in Hm. eapply Forall2_impl; [exact Hm|].
  intros q r Hq. cbn in Hq.
  destruct (to_datetime (raw_date q)) as [dt|]; [|done].
  exists dt. split; [done|]. cbn in Hq. by injection Hq as <-.
Qed.


Lemma chain_summary_history df chain_id :
  df ≠ [] →
  ∃ s, chain_summary df chain_id = Some s
    ∧ history s = take 30 (sort_values p_date (select_date_tvl df)).
Proof.
  intros Hne. pose proof (sort_values_length date df) as Hs.
  unfold chain_summary, change_24h.
  destruct (sort_values date df) as [|latest [|second rest]] eqn:Hsorted;
    cbn in Hs; cbn.
  - destruct df; [done|]. cbn in Hs. lia.
  - rewrite decide_False by lia. cbn. by eexists.
  - rewrite decide_True by lia. cbn. by eexists.
Qed.


(** C8. On the frame of an accepted payload of [n] points the summary
    exists and its history is the [{date, tvl}] projection of the first
    [min 30 n] rows of the frame sorted descending by date; it has
    [min 30 n] entries, in descending order of date. *)
Theorem history_is_recent_prefix data chain_id df :
  process_tvl_data data chain_id = Some df →
  ∃ s, chain_summary df chain_id = Some s
    ∧ history s
      = select_date_tvl (take (30 `min` length data) (sort_values date df))
    ∧ length (history s) = (30 `min` length data)%nat
    ∧ Sorted date_desc (p_date <$> history s).
Proof.
  intros Hp.
  apply process_tvl_data_rows in Hp as (Hne & Hlen & _).
  destruct (chain_summary_history df chain_id) as (s & Hs & Hh).
  { intros ->. by destruct data. }
  exists s. split; [done|]. rewrite Hh.
  assert (take 30 (sort_values p_date (select_date_tvl df))
          = select_date_tvl (take (30 `min` length data) (sort_values date df)))
    as ->.
  { unfold select_date_tvl. rewrite sort_values_fmap, <- fmap_take.
    f_equal. rewrite take_min_length. by rewrite sort_values_length, Hlen. }
  split; [done|]. split.
  - unfold select_date_tvl.
    rewrite length_fmap, length_take, sort_values_length. lia.
  - unfold select_date_tvl. rewrite <- list_fmap_compose.
    rewrite fmap_take. apply Sorted_take. apply (sort_values_sorted date).
Qed.

(** C9, as the code has it.  [process_tvl_data] fails only on an empty
    payload or on a date that [pd.to_datetime] refuses, never because of
    a [tvl]; when it succeeds every raw point has its row, in place, whose
    [tvl] is the numeric reading of the raw value: an upstream number is
    kept as it is, whatever its sign, and a malformed value becomes NaN. *)
Theorem rows_keep_upstream_values data chain_id :
  (process_tvl_data data chain_id = None
   ↔ data = [] ∨ Exists (λ p, to_datetime (raw_date p) = None) data)
  ∧ ∀ df, process_tvl_data data chain_id = Some df →
      length df = length data
      ∧ Forall2 (λ p r,
                   tvl r = to_numeric (raw_tvl p)
                   ∧ (∀ x, raw_tvl p = TvlNumber x → tvl r = x)
                   ∧ (malformed (raw_tvl p) → is_nan (tvl r) = true)) data df.
Proof.
  split.
  - unfold process_tvl_data. destruct data as [|p data]; [naive_solver|].
    rewrite mapM_None. split.
    + intros Hex. right. eapply Exists_impl; [exact Hex|].
      intros q Hq. cbn in Hq. by destruct (to_datetime (raw_date q)).
    + intros [?|Hex]; [done|]. eapply Exists_impl; [exact Hex|].
      intros q Hq. cbn. by rewrite Hq.
  - intros df Hp. apply process_tvl_data_rows in Hp as (_ & Hlen & Hrows).
    split; [done|]. eapply Forall2_impl; [exact Hrows|].
    intros p r (dt & _ & ->). unfold tvl. cbn [tvl_value].
    rewrite to_float_frame_value. split; [done|]. split.
    + by intros x ->.
    + unfold malformed, to_numeric, str_to_float.
      destruct (raw_tvl p) as [x|n|t|]; cbn; [done|done| |done].
      by destruct (str_to_number t).
Qed.

(** The [iloc] lookups never fail: the endpoint has no unhandled
    exception. *)
Lemma single_chain_answer_handled chain_id data :
  body (single_chain_answer chain_id data) ≠ UnhandledException.
Proof.
  unfold single_chain_answer. destruct (truthy data) as [d|]; [|done].
  destruct (process_tvl_data d chain_id) as [[|r df]|]; try done.
  destruct (chain_summary_history (r :: df) chain_id) as (s & -> & _); done.
Qed.

End Transformer.

(** ** The fan-out endpoints *)

Lemma CHAINS_NoDup : NoDup CHAINS.
Proof. by apply (bool_decide_unpack _). Qed.

Lemma take_rows_nil {A} idx : take_rows (@nil A) idx = [].
Proof. unfold take_rows. by induction idx. Qed.

Lemma same_entry_trans chain_id w1 w2 w3 :
  same_entry chain_id w1 w2 → same_entry chain_id w2 w3 → same_entry chain_id w1 w3.
Proof. intros [? ?] [? ?]. split; congruence. Qed.

Section FanOut.
Context `{Runtime}.

Lemma summaries_loop_outcomes completed env results total w w0 :
  NoDup completed →
  (∀ c, c ∈ completed → same_entry c w w0) →
  (summaries_loop completed env results total w).1
  = (results ++ omap (chain_outcome env w0) completed,
     foldl (λ t r, (t + s_tvl r)%float) total
       (omap (chain_outcome env w0) completed)).
Proof.
  intros Hnd. revert results total w.
  induction Hnd as [|c rest Hc Hnd IH]; intros results total w Hw.
  { cbn. by rewrite app_nil_r. }
  cbn [summaries_loop omap list_omap].
  pose proof (fetch_tvl_data_frame (env c).1 (env c).2 c) as Hframe.
  pose proof (fetch_tvl_data_local (env c).1 (env c).2 c w w0) as Hlocal.
  destruct (fetch_tvl_data (env c).1 (env c).2 c w) as [data w'] eqn:Hf.
  cbn [fst snd] in *.
  assert (∀ c', c' ∈ rest → same_entry c' w' w0) as Hw'.
  { intros c' Hc'. eapply same_entry_trans; [|apply Hw; set_solver].
    specialize (Hframe c' w). rewrite Hf in Hframe. apply Hframe.
    intros ->. done. }
  assert (chain_outcome env w0 c
          = usable_frame data c ≫= (λ df, chain_summary df c)) as ->.
  { unfold chain_outcome, chain_frame.
    by rewrite <- Hlocal by (apply Hw; set_solver). }
  destruct (usable_frame data c ≫= _) as [chain_result|]; cbn.
  - rewrite IH by done. by rewrite <- app_assoc.
  - by rewrite IH.
Qed.

Lemma frames_loop_outcomes completed env all_data w w0 :
  NoDup completed →
  (∀ c, c ∈ completed → same_entry c w w0) →
  (frames_loop completed env all_data w).1
  = all_data
    ++ omap (λ c, select_chain_date_tvl <$> chain_frame env w0 c) completed.
Proof.
  intros Hnd. revert all_data w.
  induction Hnd as [|c rest Hc Hnd IH]; intros all_data w Hw.
  { cbn. by rewrite app_nil_r. }
  cbn [frames_loop omap list_omap].
  pose proof (fetch_tvl_data_frame (env c).1 (env c).2 c) as Hframe.
  pose proof (fetch_tvl_data_local (env c).1 (env c).2 c w w0) as Hlocal.
  destruct (fetch_tvl_data (env c).1 (env c).2 c w) as [data w'] eqn:Hf.
  cbn [fst snd] in *.
  assert (∀ c', c' ∈ rest → same_entry c' w' w0) as Hw'.
  { intros c' Hc'. eapply same_entry_trans; [|apply Hw; set_solver].
    specialize (Hframe c' w). rewrite Hf in Hframe. apply Hframe.
    intros ->. done. }
  assert (chain_frame env w0 c = usable_frame data c) as ->.
  { unfold chain_frame. by rewrite <- Hlocal by (apply Hw; set_solver). }
  destruct (usable_frame data c) as [df|]; cbn.
  - rewrite IH by done. by rewrite <- app_assoc.
  - by rewrite IH.
Qed.

Lemma omap_all_None {A B} (f : A → option B) (l : list A) :
  (∀ x, x ∈ l → f x = None) → omap f l = [].
Proof.
  induction l as [|x l IH]; intros Hf; [done|].
  cbn. rewrite Hf by set_solver. apply IH. intros y Hy. apply Hf. set_solver.
Qed.

(** C3. When no chain of the fixed set yields a usable frame (its fetch
    returned nothing or its payload could not be processed), the
    all-chains endpoint answers 200 with an empty list and a total of 0,
    and the CSV endpoint answers 500 with its no-data error. *)
Theorem empty_result_asymmetry timestamp completed env w :
  completed ≡ₚ CHAINS →
  (∀ c, c ∈ CHAINS → chain_frame env w c = None) →
  (get_all_tvl timestamp completed env w).1
  = respond 200 (AllBody timestamp 0%float [])
  ∧ (get_tvl_csv completed env w).1
    = respond 500 (ErrorBody "No data available to export").
Proof.
  intros Hperm Hfail.
  assert (NoDup completed) as Hnd by (rewrite Hperm; apply CHAINS_NoDup).
  split.
  - unfold get_all_tvl.
    pose proof (summaries_loop_outcomes completed env [] 0%float w w Hnd) as Hc.
    destruct (summaries_loop completed env [] 0%float w) as [[results total] w'].
    cbn [fst] in *. specialize (Hc ltac:(done)).
    rewrite omap_all_None in Hc.
    + injection Hc as -> ->.
      unfold sort_by_tvl_reverse. by rewrite take_rows_nil.
    + intros c Hc'. unfold chain_outcome. rewrite Hfail; [done|].
      by rewrite <- Hperm.
  - unfold get_tvl_csv.
    pose proof (frames_loop_outcomes completed env [] w w Hnd) as Hc.
    destruct (frames_loop completed env [] w) as [all_data w'].
    cbn [fst] in *. rewrite Hc by done.
    rewrite omap_all_None; [done|].
    intros c Hc'. rewrite Hfail; [done|]. by rewrite <- Hperm.
Qed.

(** C7, as the code has it.  The summaries included in the all-chains
    answer are exactly those of the chains that yield one, collected in
    the order of completion; [total_tvl] is the float sum of their [tvl]
    accumulated from 0 in that order; the [chains] list is a rearrangement
    of them, and it is sorted descending by [tvl] when none of them is
    NaN. *)
Theorem all_chains_total_and_order timestamp completed env w :
  completed ≡ₚ CHAINS →
  let included := omap (chain_outcome env w) completed in
  ∃ chains,
    (get_all_tvl timestamp completed env w).1
    = respond 200 (AllBody timestamp (sum_tvl included) chains)
    ∧ chains ≡ₚ included
    ∧ (Forall (λ s, is_nan (s_tvl s) = false) included →
       Sorted float_desc (s_tvl <$> chains)).
Proof.
  intros Hperm included.
  assert (NoDup completed) as Hnd by (rewrite Hperm; apply CHAINS_NoDup).
  unfold get_all_tvl.
  pose proof (summaries_loop_outcomes completed env [] 0%float w w Hnd) as Hc.
  destruct (summaries_loop completed env [] 0%float w) as [[results total] w'].
  cbn [fst] in *. specialize (Hc ltac:(done)). fold included in Hc.
  injection Hc as -> ->.
  exists (sort_by_tvl_reverse included). split; [done|]. split.
  - apply take_rows_perm. rewrite <- (length_fmap s_tvl).
    apply list_sort_reverse_perm.
  - intros Hnan. unfold sort_by_tvl_reverse. rewrite take_rows_fmap.
    apply list_sort_reverse_sorted. by apply Forall_fmap.
Qed.

End FanOut.

(** * Further properties of the code *)

(** ** The fetcher *)

Lemma cache_fresh_same_entry chain_id w w' now :
  same_entry chain_id w w' → cache_fresh w chain_id now = cache_fresh w' chain_id now.
Proof. intros [_ Ht]. unfold cache_fresh. by rewrite Ht. Qed.

Lemma fetch_tvl_data_local_world now up chain_id w w' :
  same_entry chain_id w w' →
  same_entry chain_id (fetch_tvl_data now up chain_id w).2
    (fetch_tvl_data now up chain_id w').2.
Proof.
  intros Hs. unfold fetch_tvl_data.
  rewrite (cache_fresh_same_entry chain_id w w' now Hs).
  destruct (cache_fresh w' chain_id now); [done|].
  destruct up as [|status [data|]]; [done| |]; destruct (raises_for_status status);
    try done.
  split; cbn; by rewrite !lookup_insert_eq.
Qed.

Lemma fetch_tvl_data_calls now up chain_id w :
  upstream_calls (fetch_tvl_data now up chain_id w).2
  = if cache_fresh w chain_id now then upstream_calls w
    else API_URL_TEMPLATE chain_id :: upstream_calls w.
Proof.
  unfold fetch_tvl_data. destruct (cache_fresh w chain_id now); [done|].
  destruct up as [|status [data|]]; [done| |]; by destruct (raises_for_status status).
Qed.


Lemma fetch_tvl_data_invariant now up chain_id w :
  chain_id ∈ CHAINS → cache_invariant w →
  cache_invariant (fetch_tvl_data now up chain_id w).2.
Proof.
  intros Hin (Hsame & Hsup & Hurls).
  assert (Forall supported_url (API_URL_TEMPLATE chain_id :: upstream_calls w))
    as Hurls' by (constructor; [by exists chain_id|done]).
  unfold fetch_tvl_data.
  destruct (cache_fresh w chain_id now); [done|].
  destruct up as [|status [data|]]; [done| |]; destruct (raises_for_status status);
    try done.
  split; [|split]; cbn; [| |done].
  - intros c. destruct (decide (chain_id = c)) as [->|Hne].
    + by rewrite !lookup_insert_eq.
    + rewrite !lookup_insert_ne by done. apply Hsame.
  - intros c. destruct (decide (chain_id = c)) as [->|Hne]; [done|].
    rewrite lookup_insert_ne by done. apply Hsup.
Qed.

(** A fetch returns a payload in exactly two ways: the entry of the
    chain is fresh and the payload is the cached one, or the entry is not
    fresh and the payload is the parsed body of an upstream reply on which
    [raise_for_status] does not raise. *)
Lemma fetch_returns_cached_or_upstream now up chain_id w data :
  (fetch_tvl_data now up chain_id w).1 = Some data
  ↔ (cache_fresh w chain_id now = true ∧ tvl_cache w !! chain_id = Some data)
    ∨ (cache_fresh w chain_id now = false
       ∧ ∃ status, up = HttpReply status (Some data)
                   ∧ raises_for_status status = false).
Proof.
  unfold fetch_tvl_data. destruct (cache_fresh w chain_id now); cbn.
  - split; [by left|]. by intros [[_ ?]|[? _]].
  - split.
    + intros Hd. right. split; [done|].
      destruct up as [|status [d|]]; [done| |];
        destruct (raises_for_status status) eqn:Hr; try done.
      injection Hd as ->. by exists status.
    + intros [[? _]|(_ & status & -> & ->)]; done.
Qed.

Section Requests.
Context `{Runtime}.


(** X2. A failure is not remembered.  While the entry of a supported chain
    is not fresh, every request whose upstream call fails is answered with
    the fetch-failure 500 and sends its own request upstream; the two
    dictionaries stay as they were. *)
Theorem failures_are_not_cached chain_id (requests : list (float * Upstream)) w :
  chain_id ∈ CHAINS →
  Forall (λ req, cache_fresh w chain_id req.1 = false ∧ upstream_fails req.2)
    requests →
  (serve chain_id requests w).1
  = replicate (length requests)
      (respond 500 (ErrorBody ("Failed to fetch data for " +:+ chain_id)))
  ∧ tvl_cache (serve chain_id requests w).2 = tvl_cache w
  ∧ cache_time (serve chain_id requests w).2 = cache_time w
  ∧ upstream_calls (serve chain_id requests w).2
    = replicate (length requests) (API_URL_TEMPLATE chain_id) ++ upstream_calls w.
Proof.
  intros Hin Hreqs. revert w Hreqs.
  induction requests as [|[now up] requests IH]; intros w Hreqs; [done|].
  apply Forall_cons in Hreqs as [[Hstale Hfail] Hreqs]. cbn in Hstale, Hfail.
  cbn [serve]. rewrite get_tvl_for_chain_supported by done.
  assert (fetch_tvl_data now up chain_id w = (None, log_call chain_id w)) as ->.
  { unfold fetch_tvl_data. rewrite Hstale.
    destruct up as [|status json]; [done|]. destruct Hfail as [-> | ->]; [done|].
    by destruct (raises_for_status status). }
  cbn [fst snd]. specialize (IH (log_call chain_id w) Hreqs).
  destruct (serve chain_id requests (log_call chain_id w)) as [rs w'].
  cbn [fst snd] in *. destruct IH as (-> & -> & -> & ->).
  repeat split. cbn [length]. by rewrite replicate_S_end, <- app_assoc.
Qed.

End Requests.

(** ** The summary of a chain *)

Lemma string_leb_refl a : String.leb a a = true.
Proof.
  pose proof (proj2 (String_as_OT.cmp_eq a a) eq_refl) as Heq.
  unfold String_as_OT.cmp in Heq. unfold String.leb. by rewrite Heq.
Qed.

Lemma string_leb_trans a b c :
  String.leb a b = true → String.leb b c = true → String.leb a c = true.
Proof.
  unfold String.leb.
  destruct (String.compare a b) eqn:Hab; [|destruct (String.compare b c) eqn:Hbc|];
    try done.
  - apply String.compare_eq_iff in Hab as ->. done.
  - apply String.compare_eq_iff in Hbc as <-. by rewrite Hab.
  - intros _ _. apply String_as_OT.cmp_lt in Hab, Hbc.
    pose proof (String_as_OT.lt_trans _ _ _ Hab Hbc) as Hac.
    apply String_as_OT.cmp_lt in Hac. unfold String_as_OT.cmp in Hac.
    by rewrite Hac.
Qed.

Lemma date_desc_transitive : Transitive date_desc.
Proof. intros a b c Hab Hbc. unfold date_desc in *. by eapply string_leb_trans. Qed.

Section Summary.
Context `{Runtime}.

Lemma sort_values_strongly_sorted {A} (col : A → string) (df : list A) :
  StronglySorted date_desc (col <$> sort_values col df).
Proof.
  apply Sorted_StronglySorted; [apply date_desc_transitive|].
  apply sort_values_sorted.
Qed.

Lemma sort_values_select df :
  sort_values p_date (select_date_tvl df) = select_date_tvl (sort_values date df).
Proof. unfold select_date_tvl. by rewrite sort_values_fmap. Qed.

(** The summary written out on the sorted frame. *)
Lemma chain_summary_explicit df chain_id latest rest :
  sort_values date df = latest :: rest →
  ∃ change percent_change,
    chain_summary df chain_id
    = Some {| s_chain := chain_id;
              latest_date := date latest;
              s_tvl := tvl latest;
              tvl_change_24h := change;
              tvl_percent_change_24h := percent_change;
              history := select_date_tvl (take 30 (latest :: rest)) |}.
Proof.
  intros Hsorted. pose proof (sort_values_length date df) as Hlen.
  unfold chain_summary, change_24h.
  rewrite sort_values_select, Hsorted in *. cbn in Hlen. cbn [lookup list_lookup].
  cbn [mbind option_bind].
  destruct (decide (1 < length df)%nat) as [Hgt|Hle].
  - destruct rest as [|second rest]; [cbn in Hlen; lia|]. cbn.
    unfold select_date_tvl. rewrite fmap_take. by eexists _, _.
  - cbn. unfold select_date_tvl. rewrite fmap_take. by eexists _, _.
Qed.

Lemma process_tvl_data_nonempty data chain_id df :
  process_tvl_data data chain_id = Some df → df ≠ [].
Proof.
  intros Hp. apply process_tvl_data_rows in Hp as (Hne & Hlen & _).
  intros ->. by destruct data.
Qed.

Lemma sort_values_nonempty df :
  df ≠ [] → ∃ latest rest, sort_values date df = latest :: rest.
Proof.
  intros Hne. pose proof (sort_values_length date df) as Hlen.
  destruct (sort_values date df) as [|latest rest]; [|by eauto].
  destruct df; [done|]. cbn in Hlen. lia.
Qed.

(** X3. The summary names the chain it was asked for, and its [latest_date]
    and [tvl] are those of the first history entry: the two sorts of the
    code, of the whole frame and of its [date]/[tvl] columns, put the
    same row first. *)
Theorem latest_is_first_history_entry data chain_id df :
  process_tvl_data data chain_id = Some df →
  ∃ s first others,
    chain_summary df chain_id = Some s
    ∧ s_chain s = chain_id
    ∧ history s = first :: others
    ∧ p_date first = latest_date s
    ∧ p_tvl first = s_tvl s.
Proof.
  intros Hp. apply process_tvl_data_nonempty in Hp.
  destruct (sort_values_nonempty df Hp) as (latest & rest & Hsorted).
  destruct (chain_summary_explicit df chain_id latest rest Hsorted)
    as (change & pct & ->).
  by eexists _, _, _.
Qed.

(** X4. The [latest_date] of the summary is the greatest date of the
    frame: no row has a later day. *)
Theorem latest_date_is_greatest data chain_id df s :
  process_tvl_data data chain_id = Some df →
  chain_summary df chain_id = Some s →
  ∀ r, r ∈ df → String.leb (date r) (latest_date s) = true.
Proof.
  intros Hp Hs r Hr. apply process_tvl_data_nonempty in Hp.
  destruct (sort_values_nonempty df Hp) as (latest & rest & Hsorted).
  destruct (chain_summary_explicit df chain_id latest rest Hsorted)
    as (change & pct & Heq).
  rewrite Heq in Hs. injection Hs as <-. cbn.
  pose proof (sort_values_strongly_sorted date df) as Hss.
  rewrite <- (sort_values_perm date df), Hsorted in Hr.
  rewrite Hsorted, fmap_cons in Hss. apply StronglySorted_inv in Hss as [_ Hall].
  apply elem_of_cons in Hr as [->|Hr]; [apply string_leb_refl|].
  rewrite Forall_forall in Hall. apply Hall. by apply list_elem_of_fmap_2.
Qed.

(** X5. The history keeps the most recent points.  The [date]/[tvl] pairs
    of the frame are the history together with the pairs left out; there
    are [n - 30] of those, and none of them is dated after an entry of the
    history. *)
Theorem history_keeps_most_recent data chain_id df s :
  process_tvl_data data chain_id = Some df →
  chain_summary df chain_id = Some s →
  ∃ dropped,
    select_date_tvl df ≡ₚ history s ++ dropped
    ∧ length dropped = (length data - 30)%nat
    ∧ ∀ kept old, kept ∈ history s → old ∈ dropped →
                  String.leb (p_date old) (p_date kept) = true.
Proof.
  intros Hp Hs.
  pose proof (process_tvl_data_rows _ _ _ Hp) as (_ & Hlen & _).
  apply process_tvl_data_nonempty in Hp.
  destruct (sort_values_nonempty df Hp) as (latest & rest & Hsorted).
  destruct (chain_summary_explicit df chain_id latest rest Hsorted)
    as (change & pct & Heq).
  assert (history s = select_date_tvl (take 30 (sort_values date df))) as ->.
  { rewrite Heq in Hs. injection Hs as <-. by rewrite Hsorted. }
  exists (select_date_tvl (drop 30 (sort_values date df))). split; [|split].
  - unfold select_date_tvl. rewrite <- fmap_app, take_drop.
    by rewrite sort_values_perm.
  - unfold select_date_tvl.
    by rewrite length_fmap, length_drop, sort_values_length, Hlen.
  - intros kept old Hkept Hold.
    pose proof (sort_values_strongly_sorted date df) as Hss.
    rewrite <- (take_drop 30 (sort_values date df)), fmap_app in Hss.
    unfold select_date_tvl in Hkept, Hold.
    apply list_elem_of_fmap in Hkept as (rk & -> & Hrk).
    apply list_elem_of_fmap in Hold as (ro & -> & Hro).
    cbn. eapply (StronglySorted_app_1_elem_of _ _ _ _ _ Hss);
      by apply list_elem_of_fmap_2.
Qed.

End Summary.

(** ** The single-chain endpoint *)

Section SingleChainStatus.
Context `{Runtime}.

(** X6. The answer of the single-chain endpoint is 400 exactly for an
    unsupported chain, and 200 exactly when the chain is supported, the
    fetch returned a non-empty payload and the payload could be processed;
    a 200 carries a summary of the requested chain, every other answer is
    a 400 or a 500 with an error message. *)
Theorem single_chain_status chain_id now up w :
  let r := (get_tvl_for_chain chain_id now up w).1 in
  (status_code r = 400 ↔ chain_id ∉ CHAINS)
  ∧ (status_code r = 200
     ↔ chain_id ∈ CHAINS
       ∧ ∃ data df, truthy (fetch_tvl_data now up chain_id w).1 = Some data
                    ∧ process_tvl_data data chain_id = Some df)
  ∧ (status_code r = 200 → ∃ s, body r = SummaryBody s ∧ s_chain s = chain_id)
  ∧ (status_code r ≠ 200 →
     (status_code r = 400 ∨ status_code r = 500) ∧ ∃ msg, body r = ErrorBody msg).
Proof.
  destruct (decide (chain_id ∈ CHAINS)) as [Hin|Hout].
  - rewrite get_tvl_for_chain_supported by done. cbn [fst].
    unfold single_chain_answer.
    destruct (truthy (fetch_tvl_data now up chain_id w).1) as [data|] eqn:Ht.
    2: { cbn. repeat split; try done; try (by intros [_ (? & ? & ? & _)]); eauto. }
    destruct (process_tvl_data data chain_id) as [df|] eqn:Hp.
    2: { cbn. repeat split; try done; eauto.
         intros [_ (d & df & [= <-] & Hd)]. congruence. }
    pose proof (process_tvl_data_nonempty _ _ _ Hp) as Hne.
    destruct (sort_values_nonempty df Hne) as (latest & rest & Hsorted).
    destruct (chain_summary_explicit df chain_id latest rest Hsorted)
      as (change & pct & Hs).
    destruct df as [|r0 df]; [done|]. rewrite Hs. cbn.
    repeat split; try done; eauto.
  - unfold get_tvl_for_chain. rewrite bool_decide_false by done. cbn.
    repeat split; try done; eauto. by intros [? _].
Qed.

End SingleChainStatus.

(** ** The world after a fan-out *)

Lemma same_entry_refl chain_id w : same_entry chain_id w w.
Proof. done. Qed.

Lemma same_entry_sym chain_id w w' : same_entry chain_id w w' → same_entry chain_id w' w.
Proof. by intros [? ?]. Qed.

Lemma filter_ext_in {A} (P Q : A → Prop) `{∀ x, Decision (P x)}
    `{∀ x, Decision (Q x)} (l : list A) :
  (∀ x, x ∈ l → P x ↔ Q x) → filter P l = filter Q l.
Proof.
  induction l as [|x l IH]; intros Hpq; [done|].
  rewrite !filter_cons.
  rewrite IH by (intros y Hy; apply Hpq; apply elem_of_cons; by right).
  pose proof (Hpq x ltac:(apply elem_of_cons; by left)) as Hx.
  destruct (decide (P x)) as [Hp|Hp], (decide (Q x)) as [Hq|Hq]; try done.
  - by apply Hx in Hp.
  - by apply Hx in Hq.
Qed.

Lemma fan_out_world_cons chain_id rest env w :
  fan_out_world (chain_id :: rest) env w
  = fan_out_world rest env
      (fetch_tvl_data (env chain_id).1 (env chain_id).2 chain_id w).2.
Proof. done. Qed.

Lemma fan_out_world_entry_out completed env w chain_id :
  chain_id ∉ completed → same_entry chain_id (fan_out_world completed env w) w.
Proof.
  revert w. induction completed as [|c rest IH]; intros w Hout; [done|].
  rewrite fan_out_world_cons.
  eapply same_entry_trans; [apply IH; set_solver|].
  apply fetch_tvl_data_frame. set_solver.
Qed.

Lemma fan_out_world_entry_in completed env w chain_id :
  NoDup completed → chain_id ∈ completed →
  same_entry chain_id (fan_out_world completed env w)
    (fetch_tvl_data (env chain_id).1 (env chain_id).2 chain_id w).2.
Proof.
  intros Hnd. revert w. induction Hnd as [|c rest Hc Hnd IH]; intros w Hin.
  { by apply elem_of_nil in Hin. }
  rewrite fan_out_world_cons. apply elem_of_cons in Hin as [->|Hin].
  - by apply fan_out_world_entry_out.
  - eapply same_entry_trans; [by apply IH|].
    apply fetch_tvl_data_local_world, fetch_tvl_data_frame. by intros ->.
Qed.

Lemma stale_chains_after_fetch rest env w chain_id now up :
  chain_id ∉ rest →
  stale_chains rest env (fetch_tvl_data now up chain_id w).2
  = stale_chains rest env w.
Proof.
  intros Hout. unfold stale_chains. apply filter_ext_in. intros c Hc.
  rewrite (cache_fresh_same_entry c _ w); [done|].
  apply fetch_tvl_data_frame. by intros ->.
Qed.

Lemma fan_out_world_calls completed env w :
  NoDup completed →
  upstream_calls (fan_out_world completed env w)
  = reverse (API_URL_TEMPLATE <$> stale_chains completed env w) ++ upstream_calls w.
Proof.
  intros Hnd. revert w. induction Hnd as [|c rest Hc Hnd IH]; intros w; [done|].
  rewrite fan_out_world_cons, IH, stale_chains_after_fetch by done.
  rewrite fetch_tvl_data_calls. unfold stale_chains at 2. rewrite filter_cons.
  fold (stale_chains rest env w).
  destruct (cache_fresh w c (env c).1) eqn:Hfresh.
  - by rewrite decide_False by done.
  - rewrite decide_True by done.
    by rewrite fmap_cons, reverse_cons, <- app_assoc.
Qed.

Lemma fan_out_world_invariant completed env w :
  Forall (λ c, c ∈ CHAINS) completed →
  cache_invariant w → cache_invariant (fan_out_world completed env w).
Proof.
  intros Hall. revert w. induction Hall as [|c rest Hc _ IH]; intros w Hw; [done|].
  rewrite fan_out_world_cons. by apply IH, fetch_tvl_data_invariant.
Qed.

Lemma cache_invariant_size w :
  cache_invariant w → (size (tvl_cache w) ≤ 15 ∧ size (cache_time w) ≤ 15)%nat.
Proof.
  intros (Hsame & Hsup & _).
  assert (dom (cache_time w) ⊆ list_to_set (C := gset string) CHAINS) as Ht.
  { intros c Hc. apply elem_of_dom in Hc. apply elem_of_list_to_set. by apply Hsup. }
  assert (dom (tvl_cache w) ⊆ list_to_set (C := gset string) CHAINS) as Hp.
  { intros c Hc. apply elem_of_dom in Hc. apply elem_of_list_to_set.
    by apply Hsup, Hsame. }
  apply subseteq_size in Ht, Hp.
  rewrite size_dom, size_list_to_set in Ht by apply CHAINS_NoDup.
  rewrite size_dom, size_list_to_set in Hp by apply CHAINS_NoDup.
  done.
Qed.

Section FanOutEffects.
Context `{Runtime}.

Lemma summaries_loop_world completed env results total w :
  (summaries_loop completed env results total w).2 = fan_out_world completed env w.
Proof.
  revert results total w. induction completed as [|c rest IH];
    intros results total w; [done|].
  rewrite fan_out_world_cons. cbn [summaries_loop].
  destruct (fetch_tvl_data (env c).1 (env c).2 c w) as [data w'].
  by destruct (usable_frame data c ≫= _); rewrite IH.
Qed.

Lemma frames_loop_world completed env all_data w :
  (frames_loop completed env all_data w).2 = fan_out_world completed env w.
Proof.
  revert all_data w. induction completed as [|c rest IH]; intros all_data w; [done|].
  rewrite fan_out_world_cons. cbn [frames_loop].
  destruct (fetch_tvl_data (env c).1 (env c).2 c w) as [data w'].
  by destruct (usable_frame data c); rewrite IH.
Qed.

Lemma get_all_tvl_world timestamp completed env w :
  (get_all_tvl timestamp completed env w).2 = fan_out_world completed env w.
Proof.
  unfold get_all_tvl.
  pose proof (summaries_loop_world completed env [] 0%float w) as Hw.
  by destruct (summaries_loop completed env [] 0%float w) as [[results total] w'].
Qed.

Lemma get_tvl_csv_world completed env w :
  (get_tvl_csv completed env w).2 = fan_out_world completed env w.
Proof.
  unfold get_tvl_csv.
  pose proof (frames_loop_world completed env [] w) as Hw.
  destruct (frames_loop completed env [] w) as [all_data w'].
  by destruct all_data.
Qed.

Lemma handle_invariant r w :
  well_formed r → cache_invariant w → cache_invariant (handle r w).2.
Proof.
  intros Hwf Hw.
  assert (∀ completed, completed ≡ₚ CHAINS → Forall (λ c, c ∈ CHAINS) completed)
    as Hall.
  { intros completed Hp. apply Forall_forall. intros c Hc. by rewrite <- Hp. }
  destruct r as [chain_id now up|timestamp completed env|completed env]; cbn.
  - destruct (decide (chain_id ∈ CHAINS)) as [Hin|Hout].
    + rewrite get_tvl_for_chain_supported by done.
      by apply fetch_tvl_data_invariant.
    + unfold get_tvl_for_chain. by rewrite bool_decide_false by done.
  - rewrite get_all_tvl_world. apply fan_out_world_invariant; [by apply Hall|done].
  - rewrite get_tvl_csv_world. apply fan_out_world_invariant; [by apply Hall|done].
Qed.

(** X7. Whatever requests the service has answered since it started, the
    two dictionaries hold the same chains, all of them supported, so at
    most fifteen entries each, and every request sent upstream was for the
    URL of a supported chain. *)
Theorem reachable_cache_invariant w :
  reachable w →
  cache_invariant w
  ∧ (size (tvl_cache w) ≤ 15)%nat
  ∧ (size (cache_time w) ≤ 15)%nat.
Proof.
  intros Hr. assert (cache_invariant w) as Hinv.
  { induction Hr as [|w r _ IH Hwf]; [|by apply handle_invariant].
    split; [|split]; [| |constructor]; intros c; cbn; rewrite !lookup_empty;
      [done|]. by intros [? ?]. }
  split; [done|].
  by destruct (cache_invariant_size w Hinv) as [Hp Ht].
Qed.

(** X8. A fan-out asks upstream exactly once for every chain whose entry
    is not fresh when its worker looks, and not at all for the others. *)
Theorem fan_out_requests_stale_chains timestamp completed env w :
  completed ≡ₚ CHAINS →
  upstream_calls (get_all_tvl timestamp completed env w).2
  = reverse (API_URL_TEMPLATE <$> stale_chains completed env w) ++ upstream_calls w
  ∧ (length (stale_chains completed env w) ≤ 15)%nat.
Proof.
  intros Hperm.
  assert (NoDup completed) as Hnd by (rewrite Hperm; apply CHAINS_NoDup).
  split.
  - rewrite get_all_tvl_world. by apply fan_out_world_calls.
  - unfold stale_chains. etransitivity; [apply length_filter|].
    by rewrite Hperm.
Qed.

(** X9. The CSV endpoint and the all-chains endpoint, given the same
    completion order and upstream answers, leave the same world: the same
    cache and the same upstream requests. *)
Theorem csv_and_all_same_effect timestamp completed env w :
  (get_tvl_csv completed env w).2 = (get_all_tvl timestamp completed env w).2.
Proof. by rewrite get_tvl_csv_world, get_all_tvl_world. Qed.

(** X10. The cache left by a fan-out does not depend on the order in which
    the workers complete, and neither does the set of upstream requests. *)
Theorem fan_out_cache_order_independent timestamp completed completed' env w :
  completed ≡ₚ CHAINS → completed' ≡ₚ CHAINS →
  tvl_cache (get_all_tvl timestamp completed env w).2
  = tvl_cache (get_all_tvl timestamp completed' env w).2
  ∧ cache_time (get_all_tvl timestamp completed env w).2
    = cache_time (get_all_tvl timestamp completed' env w).2
  ∧ upstream_calls (get_all_tvl timestamp completed env w).2
    ≡ₚ upstream_calls (get_all_tvl timestamp completed' env w).2.
Proof.
  intros Hp Hp'.
  assert (NoDup completed) as Hnd by (rewrite Hp; apply CHAINS_NoDup).
  assert (NoDup completed') as Hnd' by (rewrite Hp'; apply CHAINS_NoDup).
  rewrite !get_all_tvl_world.
  assert (∀ c, same_entry c (fan_out_world completed env w)
                 (fan_out_world completed' env w)) as Hsame.
  { intros c. destruct (decide (c ∈ completed)) as [Hin|Hout].
    - eapply same_entry_trans; [by apply fan_out_world_entry_in|].
      apply same_entry_sym, fan_out_world_entry_in; [done|].
      by rewrite Hp', <- Hp.
    - eapply same_entry_trans; [by apply fan_out_world_entry_out|].
      apply same_entry_sym, fan_out_world_entry_out. by rewrite Hp', <- Hp. }
  split; [|split].
  - apply map_eq. intros c. apply Hsame.
  - apply map_eq. intros c. apply Hsame.
  - rewrite !fan_out_world_calls by done. unfold stale_chains.
    by rewrite !reverse_Permutation, Hp, Hp'.
Qed.

End FanOutEffects.

(** ** What the fan-out endpoints list *)

Section FanOutContents.
Context `{Runtime}.

Lemma chain_summary_name df chain_id s :
  chain_summary df chain_id = Some s → s_chain s = chain_id.
Proof.
  unfold chain_summary. intros Hs.
  destruct (sort_values date df !! 0%nat) as [latest|]; [|done]. cbn in Hs.
  destruct (change_24h df (sort_values date df) latest) as [[change pct]|];
    [|done].
  cbn in Hs. by injection Hs as <-.
Qed.

Lemma usable_frame_rows data chain_id df :
  usable_frame data chain_id = Some df →
  df ≠ [] ∧ Forall (λ r, chain r = chain_id) df.
Proof.
  unfold usable_frame. intros Hu.
  destruct (truthy data) as [d|]; [|done]. cbn in Hu.
  destruct (process_tvl_data d chain_id) as [df'|] eqn:Hp; [|done]. cbn in Hu.
  destruct df' as [|r df']; [done|]. injection Hu as <-. split; [done|].
  apply process_tvl_data_rows in Hp as (_ & _ & Hrows).
  eapply Forall2_Forall_r with (l := d); [exact Hrows|].
  apply Forall_true. by intros p r' (dt & _ & ->).
Qed.

Lemma chain_outcome_name env w chain_id s :
  chain_outcome env w chain_id = Some s → s_chain s = chain_id.
Proof.
  unfold chain_outcome. destruct (chain_frame env w chain_id) as [df|]; [|done].
  apply chain_summary_name.
Qed.

Lemma chain_outcome_is_Some env w chain_id :
  is_Some (chain_outcome env w chain_id) ↔ is_Some (chain_frame env w chain_id).
Proof.
  unfold chain_outcome.
  destruct (chain_frame env w chain_id) as [df|] eqn:Hf; cbn; [|done].
  split; [eauto|]. intros _.
  apply usable_frame_rows in Hf as [Hne _].
  destruct (sort_values_nonempty df Hne) as (latest & rest & Hsorted).
  destruct (chain_summary_explicit df chain_id latest rest Hsorted)
    as (change & pct & ->).
  eauto.
Qed.

Lemma outcome_names completed env w :
  s_chain <$> omap (chain_outcome env w) completed = usable_chains completed env w.
Proof.
  unfold usable_chains. induction completed as [|c rest IH]; [done|].
  cbn [omap list_omap]. rewrite filter_cons.
  pose proof (chain_outcome_is_Some env w c) as Hiff.
  destruct (chain_outcome env w c) as [s|] eqn:Ho.
  - rewrite decide_True by (apply Hiff; eauto).
    rewrite fmap_cons, IH. f_equal. by eapply chain_outcome_name.
  - rewrite decide_False; [done|]. intros Hs. apply Hiff in Hs. by destruct Hs.
Qed.

Lemma get_all_tvl_chains timestamp completed env w :
  NoDup completed →
  (get_all_tvl timestamp completed env w).1
  = respond 200
      (AllBody timestamp (sum_tvl (omap (chain_outcome env w) completed))
         (sort_by_tvl_reverse (omap (chain_outcome env w) completed))).
Proof.
  intros Hnd. unfold get_all_tvl.
  pose proof (summaries_loop_outcomes completed env [] 0%float w w Hnd) as Hc.
  destruct (summaries_loop completed env [] 0%float w) as [[results total] w'].
  cbn [fst] in *. specialize (Hc ltac:(done)). by injection Hc as -> ->.
Qed.

Lemma sort_by_tvl_reverse_perm results : sort_by_tvl_reverse results ≡ₚ results.
Proof.
  apply take_rows_perm. rewrite <- (length_fmap s_tvl).
  apply list_sort_reverse_perm.
Qed.

Lemma get_all_tvl_names timestamp completed env w :
  NoDup completed →
  s_chain <$> response_chains (get_all_tvl timestamp completed env w).1
  ≡ₚ usable_chains completed env w.
Proof.
  intros Hnd. rewrite get_all_tvl_chains by done. unfold response_chains. cbn.
  by rewrite sort_by_tvl_reverse_perm, outcome_names.
Qed.

Lemma get_tvl_csv_frames completed env w :
  NoDup completed →
  let frames :=
    omap (λ c, select_chain_date_tvl <$> chain_frame env w c) completed in
  (get_tvl_csv completed env w).1
  = match frames with
    | [] => respond 500 (ErrorBody "No data available to export")
    | _ =>
        respond 200
          (CsvBody (take_rows (concat frames)
                      (lexsort ((λ r, (c_chain r, c_date r)) <$> concat frames))))
    end.
Proof.
  intros Hnd frames. unfold get_tvl_csv.
  pose proof (frames_loop_outcomes completed env [] w w Hnd) as Hc.
  destruct (frames_loop completed env [] w) as [all_data w'].
  cbn [fst] in *. specialize (Hc ltac:(done)). cbn in Hc. subst all_data.
  fold frames. by destruct frames.
Qed.

Lemma frames_count completed env w :
  length (omap (λ c, select_chain_date_tvl <$> chain_frame env w c) completed)
  = length (usable_chains completed env w).
Proof.
  unfold usable_chains. induction completed as [|c rest IH]; [done|].
  cbn [omap list_omap]. rewrite filter_cons.
  destruct (chain_frame env w c) as [df|]; cbn.
  - rewrite decide_True by eauto. cbn. by rewrite IH.
  - rewrite decide_False; [done|]. by intros [? ?].
Qed.

Lemma frames_chains completed env w c :
  (∃ row, row ∈ concat (omap (λ c, select_chain_date_tvl <$> chain_frame env w c)
                          completed)
          ∧ c_chain row = c)
  ↔ c ∈ usable_chains completed env w.
Proof.
  unfold usable_chains. rewrite list_elem_of_filter. split.
  - intros (row & Hrow & <-).
    apply list_elem_of_In, in_concat in Hrow as (frame & Hframe & Hin).
    apply list_elem_of_In, list_elem_of_omap in Hframe as (c' & Hc' & Hf).
    destruct (chain_frame env w c') as [df|] eqn:Hdf; [|done].
    injection Hf as <-. pose proof (usable_frame_rows _ _ _ Hdf) as [_ Hall].
    apply list_elem_of_In in Hin. unfold select_chain_date_tvl in Hin.
    apply list_elem_of_fmap in Hin as (r & -> & Hr). cbn.
    rewrite Forall_forall in Hall. rewrite (Hall r Hr), Hdf. eauto.
  - intros [[df Hdf] Hc].
    pose proof (usable_frame_rows _ _ _ Hdf) as [Hne Hall].
    destruct df as [|r df]; [done|].
    exists {| c_chain := chain r; c_date := date r; c_tvl := tvl r |}. split.
    + apply list_elem_of_In, in_concat.
      exists (select_chain_date_tvl (r :: df)). split.
      * apply list_elem_of_In, list_elem_of_omap. exists c. by rewrite Hdf.
      * by left.
    + cbn. by apply Forall_cons in Hall as [-> _].
Qed.

(** X11. The all-chains answer is always a 200.  It lists one summary for
    each chain that yielded a usable frame and nothing else, so no chain
    twice and never more than fifteen. *)
Theorem all_chains_lists_usable_chains timestamp completed env w :
  completed ≡ₚ CHAINS →
  let r := (get_all_tvl timestamp completed env w).1 in
  status_code r = 200
  ∧ s_chain <$> response_chains r ≡ₚ usable_chains completed env w
  ∧ NoDup (s_chain <$> response_chains r)
  ∧ (∀ s, s ∈ response_chains r → s_chain s ∈ CHAINS)
  ∧ (length (response_chains r) ≤ 15)%nat.
Proof.
  intros Hperm r.
  assert (NoDup completed) as Hnd by (rewrite Hperm; apply CHAINS_NoDup).
  pose proof (get_all_tvl_names timestamp completed env w Hnd) as Hnames.
  fold r in Hnames.
  split; [|split; [done|split; [|split]]].
  - unfold r. by rewrite get_all_tvl_chains.
  - rewrite Hnames. by apply NoDup_filter.
  - intros s Hs. apply (list_elem_of_fmap_2 s_chain) in Hs.
    rewrite Hnames in Hs. unfold usable_chains in Hs.
    apply list_elem_of_filter in Hs as [_ Hs]. by rewrite <- Hperm.
  - rewrite <- (length_fmap s_chain), Hnames. unfold usable_chains.
    etransitivity; [apply length_filter|]. by rewrite Hperm.
Qed.

(** X12. Which summaries the all-chains answer holds does not depend on
    the order in which the workers complete: two orders give the same
    summaries, possibly arranged differently. *)
Theorem included_summaries_order_independent timestamp completed completed' env w :
  completed ≡ₚ CHAINS → completed' ≡ₚ CHAINS →
  response_chains (get_all_tvl timestamp completed env w).1
  ≡ₚ response_chains (get_all_tvl timestamp completed' env w).1.
Proof.
  intros Hp Hp'.
  assert (NoDup completed) as Hnd by (rewrite Hp; apply CHAINS_NoDup).
  assert (NoDup completed') as Hnd' by (rewrite Hp'; apply CHAINS_NoDup).
  rewrite !get_all_tvl_chains by done. unfold response_chains. cbn.
  by rewrite !sort_by_tvl_reverse_perm, Hp, Hp'.
Qed.

(** X13. The endpoints share the cache.  After a fan-out in which the
    upstream answered a chain at [t0] with a payload, a single-chain
    request within 3600 seconds of [t0] is served from the cache and
    leaves the world as it is: its answer is what the endpoint makes of
    that payload, whatever upstream would say now.  When the fan-out
    listed a summary for the chain the answer is a 200 with that very
    summary; when it listed none, the payload being empty or impossible
    to process, the answer is a 500. *)
Theorem fan_out_feeds_single_chain timestamp completed env w chain_id
    t0 status data t1 up :
  completed ≡ₚ CHAINS → chain_id ∈ CHAINS →
  env chain_id = (t0, HttpReply status (Some data)) →
  cache_fresh w chain_id t0 = false →
  raises_for_status status = false →
  (t1 - t0 <? 3600)%float = true →
  let all := get_all_tvl timestamp completed env w in
  let answer := get_tvl_for_chain chain_id t1 up all.2 in
  answer.2 = all.2
  ∧ answer.1 = single_chain_answer chain_id (Some data)
  ∧ (∀ s, s ∈ response_chains all.1 → s_chain s = chain_id →
          answer.1 = respond 200 (SummaryBody s))
  ∧ ((∀ s, s ∈ response_chains all.1 → s_chain s ≠ chain_id) →
     status_code answer.1 = 500
     ∧ (usable_frame (Some data) chain_id = None)).
Proof.
  intros Hperm Hin Henv Hstale Hok Hage all answer. unfold answer.
  assert (NoDup completed) as Hnd by (rewrite Hperm; apply CHAINS_NoDup).
  assert (fetch_tvl_data t1 up chain_id all.2 = (Some data, all.2)) as Hfetch.
  { assert (same_entry chain_id all.2 (store chain_id data t0 (log_call chain_id w)))
      as [Hc Ht].
    { unfold all. rewrite get_all_tvl_world.
      eapply same_entry_trans;
        [apply fan_out_world_entry_in; [done|by rewrite Hperm]|].
      rewrite Henv. cbn [fst snd]. by rewrite fetch_stale_success. }
    cbn in Hc, Ht. rewrite lookup_insert_eq in Hc. rewrite lookup_insert_eq in Ht.
    rewrite fetch_fresh; [by rewrite Hc|]. unfold cache_fresh. by rewrite Ht. }
  rewrite get_tvl_for_chain_supported, Hfetch by done. cbn [fst snd].
  assert (chain_frame env w chain_id = usable_frame (Some data) chain_id)
    as Hframe.
  { unfold chain_frame. rewrite Henv. cbn [fst snd].
    by rewrite fetch_stale_success. }
  assert (chain_outcome env w chain_id
          = usable_frame (Some data) chain_id ≫= (λ df, chain_summary df chain_id))
    as Hout by (unfold chain_outcome; by rewrite Hframe).
  assert (∀ s, s ∈ response_chains all.1
               ↔ ∃ c, c ∈ completed ∧ chain_outcome env w c = Some s) as Hlisted.
  { intros s. unfold all. rewrite get_all_tvl_chains by done.
    unfold response_chains. cbn. rewrite sort_by_tvl_reverse_perm.
    apply list_elem_of_omap. }
  split; [done|]. split; [done|]. split.
  - intros s Hs Hname. apply Hlisted in Hs as (c & _ & Hc).
    pose proof (chain_outcome_name _ _ _ _ Hc) as Hcs. rewrite Hname in Hcs.
    subst c. rewrite Hout in Hc.
    unfold usable_frame in Hc. unfold single_chain_answer.
    destruct (truthy (Some data)) as [d|]; [|done]. cbn in Hc.
    destruct (process_tvl_data d chain_id) as [[|r df]|]; try done. cbn in Hc.
    by rewrite Hc.
  - intros Hnone.
    assert (chain_outcome env w chain_id = None) as Hno.
    { destruct (chain_outcome env w chain_id) as [s|] eqn:Hs; [|done].
      destruct (Hnone s); [|by eapply chain_outcome_name].
      apply Hlisted. exists chain_id. split; [by rewrite Hperm|done]. }
    assert (usable_frame (Some data) chain_id = None) as Hunusable.
    { apply eq_None_not_Some. rewrite <- Hframe, <- chain_outcome_is_Some, Hno.
      by intros [? ?]. }
    split; [|done]. revert Hunusable. unfold usable_frame, single_chain_answer.
    destruct (truthy (Some data)) as [d|]; [|done]. cbn.
    by destruct (process_tvl_data d chain_id) as [[|r df]|].
Qed.

(** X14. The CSV endpoint fails only without data: it answers the 500
    with its no-data message exactly when no chain yielded a usable frame,
    and a 200 with rows otherwise. *)
Theorem csv_fails_only_without_data completed env w :
  completed ≡ₚ CHAINS →
  let r := (get_tvl_csv completed env w).1 in
  (usable_chains completed env w = []
   ∧ r = respond 500 (ErrorBody "No data available to export"))
  ∨ (usable_chains completed env w ≠ []
     ∧ status_code r = 200 ∧ ∃ rows, body r = CsvBody rows).
Proof.
  intros Hperm r.
  assert (NoDup completed) as Hnd by (rewrite Hperm; apply CHAINS_NoDup).
  unfold r. rewrite get_tvl_csv_frames by done.
  pose proof (frames_count completed env w) as Hlen.
  destruct (omap _ completed) as [|frame frames]; cbn in Hlen.
  - left. split; [|done]. symmetry in Hlen. by apply nil_length_inv.
  - right. split; [|split; [done|eauto]]. intros Hnil.
    by rewrite Hnil in Hlen.
Qed.

(** X15. When the two-key sort of pandas rearranges rows without losing
    or adding any, the CSV holds exactly the rows of the usable frames:
    as many rows as those frames have together, and a chain occurs in the
    [chain] column exactly when it yielded a usable frame. *)
Theorem csv_rows_are_the_frames_rows completed env w :
  (∀ ks, lexsort ks ≡ₚ seq 0 (length ks)) →
  completed ≡ₚ CHAINS →
  let rows := response_rows (get_tvl_csv completed env w).1 in
  rows ≡ₚ concat (omap (λ c, select_chain_date_tvl <$> chain_frame env w c)
                    completed)
  ∧ length rows
    = sum_list (omap (λ c, length <$> chain_frame env w c) completed)
  ∧ ∀ c, (∃ row, row ∈ rows ∧ c_chain row = c)
         ↔ c ∈ usable_chains completed env w.
Proof.
  intros Hlex Hperm rows.
  assert (NoDup completed) as Hnd by (rewrite Hperm; apply CHAINS_NoDup).
  assert (rows ≡ₚ concat (omap (λ c, select_chain_date_tvl <$> chain_frame env w c)
                            completed)) as Hrows.
  { unfold rows. rewrite get_tvl_csv_frames by done.
    destruct (omap _ completed) as [|frame frames] eqn:Hframes; [done|].
    unfold response_rows. cbn [body respond].
    apply take_rows_perm. rewrite <- (length_fmap (λ r, (c_chain r, c_date r))).
    apply Hlex. }
  split; [done|]. split.
  - rewrite Hrows. clear. induction completed as [|c rest IH]; [done|].
    cbn [omap list_omap]. destruct (chain_frame env w c) as [df|]; cbn; [|done].
    rewrite length_app, IH. unfold select_chain_date_tvl. by rewrite length_fmap.
  - intros c. rewrite <- frames_chains. split; intros (row & Hrow & Hc);
      exists row; (split; [|done]); by rewrite Hrows in * || rewrite <- Hrows in *.
Qed.

(** X16. Under the same condition, and for the same completion order and
    upstream answers, the CSV and the all-chains answer cover the same
    chains: a chain has rows in the one exactly when it has a summary in
    the other. *)
Theorem csv_and_all_cover_same_chains timestamp completed env w :
  (∀ ks, lexsort ks ≡ₚ seq 0 (length ks)) →
  completed ≡ₚ CHAINS →
  ∀ c, (∃ row, row ∈ response_rows (get_tvl_csv completed env w).1
               ∧ c_chain row = c)
       ↔ (∃ s, s ∈ response_chains (get_all_tvl timestamp completed env w).1
               ∧ s_chain s = c).
Proof.
  intros Hlex Hperm c.
  assert (NoDup completed) as Hnd by (rewrite Hperm; apply CHAINS_NoDup).
  assert (response_rows (get_tvl_csv completed env w).1
          ≡ₚ concat (omap (λ c, select_chain_date_tvl <$> chain_frame env w c)
                       completed)) as Hrows.
  { rewrite get_tvl_csv_frames by done.
    destruct (omap _ completed) as [|frame frames] eqn:Hframes; [done|].
    unfold response_rows. cbn [body respond].
    apply take_rows_perm. rewrite <- (length_fmap (λ r, (c_chain r, c_date r))).
    apply Hlex. }
  transitivity (c ∈ usable_chains completed env w).
  - rewrite <- frames_chains. split; intros (row & Hrow & Hc);
      exists row; (split; [|done]); by rewrite Hrows in * || rewrite <- Hrows in *.
  - rewrite <- (get_all_tvl_names timestamp completed env w Hnd).
    rewrite list_elem_of_fmap. split.
    + intros (s & -> & Hs). eauto.
    + intros (s & Hs & <-). eauto.
Qed.

End FanOutContents.

(** ** The service run on concrete inputs *)

#[local] Existing Instance reference_runtime.

Lemma Ethereum_supported : "Ethereum" ∈ CHAINS.
Proof. by apply (bool_decide_unpack _). Defined.

Lemma two_days_processed :
  process_tvl_data two_days "Ethereum" = Some two_days_frame.
Proof. reflexivity. Defined.

Lemma odd_values_processed :
  process_tvl_data odd_values "Ethereum" = Some odd_values_frame.
Proof. reflexivity. Defined.

Lemma fetch_cache_policy_witness :
  let w := store "Ethereum" two_days 1000%float empty_world in
  fetch_tvl_data 1500%float ConnectionError "Ethereum" w = (Some two_days, w)
  ∧ upstream_calls (fetch_tvl_data 5000%float ConnectionError "Ethereum" w).2
    = [API_URL_TEMPLATE "Ethereum"]
  ∧ (get_tvl_for_chain "Ethereum" 2000%float ConnectionError
       (get_tvl_for_chain "Ethereum" 1000%float
          (HttpReply 200 (Some two_days)) empty_world).2).1
    = (get_tvl_for_chain "Ethereum" 1000%float
         (HttpReply 200 (Some two_days)) empty_world).1.
Proof.
  destruct (fetch_cache_policy "Ethereum" Ethereum_supported) as (Ha & Hb & Hc).
  split; [|split].
  - apply (Ha _ _ _ 1000%float); reflexivity.
  - apply Hc. intros t Ht. vm_compute in Ht. injection Ht as <-. reflexivity.
  - eapply (Hb empty_world 1000%float 200 two_days 2000%float ConnectionError
              3000%float ConnectionError);
      [reflexivity..| | |]; apply surjective_pairing.
Defined.

Lemma invalid_chain_rejected_witness :
  (get_tvl_for_chain "Dogecoin" 0%float (HttpReply 200 (Some two_days))
     empty_world).2 = empty_world.
Proof.
  destruct (invalid_chain_rejected "Dogecoin" 0%float
              (HttpReply 200 (Some two_days)) empty_world) as [_ Heq].
  - by apply (bool_decide_unpack _).
  - by rewrite Heq.
Defined.

Lemma failed_fetch_keeps_cache_witness :
  fetch_tvl_data 0%float (HttpReply 503 (Some two_days)) "Ethereum" empty_world
  = (None, log_call "Ethereum" empty_world).
Proof.
  apply (failed_fetch_keeps_cache "Ethereum" 0%float
           (HttpReply 503 (Some two_days)) empty_world).
  - reflexivity.
  - left. lia.
Defined.

Lemma empty_payload_cached_as_failure_witness :
  serve "Ethereum" [(1200%float, ConnectionError);
                    (4500%float, HttpReply 200 (Some two_days))]
    (store "Ethereum" [] 1000%float (log_call "Ethereum" empty_world))
  = (replicate 2 (respond 500 (ErrorBody "Failed to fetch data for Ethereum")),
     store "Ethereum" [] 1000%float (log_call "Ethereum" empty_world)).
Proof.
  destruct (empty_payload_cached_as_failure "Ethereum" empty_world 1000%float 200
              Ethereum_supported) as (_ & _ & _ & Hlater).
  - reflexivity.
  - lia.
  - apply (Hlater [(1200%float, ConnectionError);
                   (4500%float, HttpReply 200 (Some two_days))]).
    repeat constructor.
Defined.

(** C2.  A payload of integers gives an [int64] column: line 92 converts
    nothing, against the comment of line 91, so lines 119-120 compute on
    integers while every [tvl] of the answer is a float.  With 2^53 and
    2^53 + 1 both [tvl] of the answer are 2^53 and their difference is 0,
    yet the change answered is 1 and the percentage is not 0.  With
    -(2^63 - 1) and 2^63 - 1 the subtraction wraps around: the two [tvl]
    answered are 2^64 apart and the change answered is -2. *)
Theorem int64_change_is_not_tvl_difference :
  (∃ s latest second,
      (get_tvl_for_chain "Ethereum" 0%float
         (HttpReply 200 (Some large_integers)) empty_world).1
      = respond 200 (SummaryBody s)
      ∧ history s = [latest; second]
      ∧ s_tvl s = p_tvl latest
      ∧ p_tvl latest = 9007199254740992%float
      ∧ p_tvl second = 9007199254740992%float
      ∧ (p_tvl latest - p_tvl second)%float = 0%float
      ∧ tvl_change_24h s = 1%float
      ∧ (0 <? tvl_percent_change_24h s)%float = true)
  ∧ (∃ s latest second,
        (get_tvl_for_chain "Ethereum" 0%float
           (HttpReply 200 (Some distant_integers)) empty_world).1
        = respond 200 (SummaryBody s)
        ∧ history s = [latest; second]
        ∧ s_tvl s = p_tvl latest
        ∧ p_tvl latest = 9223372036854775808%float
        ∧ p_tvl second = (-9223372036854775808)%float
        ∧ (p_tvl latest - p_tvl second)%float = 18446744073709551616%float
        ∧ tvl_change_24h s = (-2)%float).
Proof.
  split; do 3 eexists; (split; [vm_compute; reflexivity|]); by vm_compute.
Qed.

Lemma history_is_recent_prefix_witness :
  ∃ s, chain_summary two_days_frame "Ethereum" = Some s
    ∧ history s = [ {| p_date := "1970-01-02"; p_tvl := 110%float |};
                    {| p_date := "1970-01-01"; p_tvl := 100%float |} ].
Proof.
  destruct (history_is_recent_prefix two_days "Ethereum" two_days_frame
              two_days_processed)
    as (s & Hs & Hh & _).
  exists s. split; [exact Hs|]. rewrite Hh. reflexivity.
Defined.

Lemma rows_keep_upstream_values_witness :
  length odd_values_frame = length odd_values
  ∧ process_tvl_data odd_values "Ethereum" = Some odd_values_frame.
Proof.
  destruct (rows_keep_upstream_values odd_values "Ethereum") as [_ Hrows].
  destruct (Hrows odd_values_frame odd_values_processed) as [Hlen _].
  split; [exact Hlen | exact odd_values_processed].
Defined.

Lemma all_down_no_frame c : chain_frame all_down empty_world c = None.
Proof. reflexivity. Defined.

Lemma empty_result_asymmetry_witness :
  (get_all_tvl "2024-01-01 00:00:00" CHAINS all_down empty_world).1
  = respond 200 (AllBody "2024-01-01 00:00:00" 0%float [])
  ∧ (get_tvl_csv CHAINS all_down empty_world).1
    = respond 500 (ErrorBody "No data available to export").
Proof.
  apply (empty_result_asymmetry "2024-01-01 00:00:00" CHAINS all_down empty_world).
  - reflexivity.
  - intros c _. apply all_down_no_frame.
Defined.

Lemma all_chains_total_and_order_witness :
  ∃ chains,
    (get_all_tvl "2024-01-01 00:00:00" CHAINS two_up empty_world).1
    = respond 200 (AllBody "2024-01-01 00:00:00" 750%float chains)
    ∧ length chains = 2%nat
    ∧ Sorted float_desc (s_tvl <$> chains).
Proof.
  destruct (all_chains_total_and_order "2024-01-01 00:00:00" CHAINS two_up
              empty_world (reflexivity _)) as (chains & Heq & Hperm & Hsorted).
  exists chains. split; [exact Heq|]. split.
  - by rewrite Hperm.
  - apply Hsorted. vm_compute. repeat constructor.
Defined.

(** Against C6 as written: a final reply with the non-2xx status 300 and a
    parseable body is returned and stored like a success. *)
Lemma non_2xx_reply_is_stored :
  let data := one_point (TvlNumber 1.5%float) in
  let result :=
    fetch_tvl_data 0%float (HttpReply 300 (Some data)) "Ethereum" empty_world in
  ¬ (200 ≤ 300 < 300)
  ∧ result.1 = Some data
  ∧ tvl_cache empty_world !! "Ethereum" = None
  ∧ tvl_cache result.2 !! "Ethereum" = Some data
  ∧ cache_time empty_world !! "Ethereum" = None
  ∧ cache_time result.2 !! "Ethereum" = Some 0%float.
Proof. split; [lia|]. by vm_compute. Qed.

(** Against C7 as written: with a NaN among the included summaries the
    list cannot be in descending order, and the total is NaN. *)
Lemma nan_summary_breaks_order :
  let r := (get_all_tvl "2024-01-01 00:00:00" CHAINS one_null empty_world).1 in
  status_code r = 200
  ∧ length (response_chains r) = 2%nat
  ∧ ¬ Sorted float_desc (s_tvl <$> response_chains r).
Proof.
  vm_compute. split; [done|]. split; [done|].
  intros Hs. inversion Hs as [|a l _ Hhd]; subst.
  inversion Hhd as [|b l' Hab]; subst. vm_compute in Hab. done.
Qed.

(** Against C9 as written: a negative upstream number yields a row whose
    [tvl] is present and negative. *)
Lemma negative_tvl_is_kept :
  process_tvl_data odd_values "Ethereum" = Some odd_values_frame
  ∧ ∃ r, odd_values_frame !! 1%nat = Some r
       ∧ is_nan (tvl r) = false
       ∧ (0 <=? tvl r)%float = false.
Proof. split; [reflexivity|]. eexists. by vm_compute. Qed.

(** ** The further properties on concrete inputs *)

Lemma two_days_summarised :
  chain_summary two_days_frame "Ethereum" = Some two_days_summary.
Proof. reflexivity. Defined.

Lemma reference_lexsort_perm ks : lexsort ks ≡ₚ seq 0 (length ks).
Proof. apply (stable_argsort_perm Reference.pair_ltb). Defined.


Lemma failures_are_not_cached_witness :
  upstream_calls
    (serve "Ethereum" [(0%float, ConnectionError); (10%float, HttpReply 503 None)]
       empty_world).2
  = [API_URL_TEMPLATE "Ethereum"; API_URL_TEMPLATE "Ethereum"].
Proof.
  destruct (failures_are_not_cached "Ethereum"
              [(0%float, ConnectionError); (10%float, HttpReply 503 None)]
              empty_world Ethereum_supported) as (_ & _ & _ & Hcalls).
  - repeat constructor.
  - exact Hcalls.
Defined.

Lemma latest_is_first_history_entry_witness :
  ∃ s first others,
    chain_summary two_days_frame "Ethereum" = Some s
    ∧ s_chain s = "Ethereum"
    ∧ history s = first :: others
    ∧ p_date first = latest_date s
    ∧ p_tvl first = s_tvl s.
Proof.
  exact (latest_is_first_history_entry two_days "Ethereum" two_days_frame
           two_days_processed).
Defined.

Lemma latest_date_is_greatest_witness :
  String.leb "1970-01-01" "1970-01-02" = true.
Proof.
  apply (latest_date_is_greatest two_days "Ethereum" two_days_frame
           two_days_summary two_days_processed two_days_summarised
           {| date_time := 1000; date := "1970-01-01"; chain := "Ethereum";
              tvl_value := IntVal (int64_of_Z 100) |}).
  apply elem_of_cons. by left.
Defined.

Lemma history_keeps_most_recent_witness :
  ∃ dropped,
    select_date_tvl two_days_frame ≡ₚ history two_days_summary ++ dropped
    ∧ length dropped = 0%nat
    ∧ ∀ kept old, kept ∈ history two_days_summary → old ∈ dropped →
                  String.leb (p_date old) (p_date kept) = true.
Proof.
  exact (history_keeps_most_recent two_days "Ethereum" two_days_frame
           two_days_summary two_days_processed two_days_summarised).
Defined.

Lemma single_chain_status_witness :
  status_code
    (get_tvl_for_chain "Dogecoin" 0%float ConnectionError empty_world).1 = 400.
Proof.
  destruct (single_chain_status "Dogecoin" 0%float ConnectionError empty_world)
    as ([_ H400] & _).
  apply H400. by apply (bool_decide_unpack _).
Defined.

Lemma reachable_cache_invariant_witness :
  (size (tvl_cache
           (handle (GetChain "Ethereum" 1000%float (HttpReply 200 (Some two_days)))
              empty_world).2) ≤ 15)%nat.
Proof.
  destruct (reachable_cache_invariant
              (handle (GetChain "Ethereum" 1000%float
                         (HttpReply 200 (Some two_days))) empty_world).2)
    as (_ & Hsize & _).
  - apply reachable_step; [apply reachable_start | exact I].
  - exact Hsize.
Defined.

Lemma fan_out_requests_stale_chains_witness :
  length (upstream_calls
            (get_all_tvl "2024-01-01 00:00:00" CHAINS two_up empty_world).2)
  = 15%nat.
Proof.
  destruct (fan_out_requests_stale_chains "2024-01-01 00:00:00" CHAINS two_up
              empty_world (reflexivity _)) as [Hcalls _].
  rewrite Hcalls. reflexivity.
Defined.

Lemma fan_out_cache_order_independent_witness :
  tvl_cache (get_all_tvl "2024-01-01 00:00:00" CHAINS two_up empty_world).2
  = tvl_cache
      (get_all_tvl "2024-01-01 00:00:00" (reverse CHAINS) two_up empty_world).2.
Proof.
  destruct (fan_out_cache_order_independent "2024-01-01 00:00:00" CHAINS
              (reverse CHAINS) two_up empty_world (reflexivity _)
              (reverse_Permutation CHAINS)) as (Hcache & _ & _).
  exact Hcache.
Defined.

Lemma all_chains_lists_usable_chains_witness :
  s_chain <$> response_chains
                (get_all_tvl "2024-01-01 00:00:00" CHAINS two_up empty_world).1
  ≡ₚ ["Ethereum"; "Solana"].
Proof.
  destruct (all_chains_lists_usable_chains "2024-01-01 00:00:00" CHAINS two_up
              empty_world (reflexivity _)) as (_ & Hnames & _).
  exact Hnames.
Defined.

Lemma included_summaries_order_independent_witness :
  response_chains (get_all_tvl "2024-01-01 00:00:00" CHAINS two_up empty_world).1
  ≡ₚ response_chains
       (get_all_tvl "2024-01-01 00:00:00" (reverse CHAINS) two_up empty_world).1.
Proof.
  exact (included_summaries_order_independent "2024-01-01 00:00:00" CHAINS
           (reverse CHAINS) two_up empty_world (reflexivity _)
           (reverse_Permutation CHAINS)).
Defined.

Lemma fan_out_feeds_single_chain_witness :
  let all := get_all_tvl "2024-01-01 00:00:00" CHAINS two_up empty_world in
  let answer := get_tvl_for_chain "Ethereum" 100%float ConnectionError all.2 in
  answer.2 = all.2
  ∧ answer.1 = respond 200 (SummaryBody (one_point_summary "Ethereum" 250%float))
  ∧ one_point_summary "Ethereum" 250%float ∈ response_chains all.1.
Proof.
  intros all answer.
  assert (one_point_summary "Ethereum" 250%float ∈ response_chains all.1)
    as Hlisted.
  { vm_compute. apply elem_of_cons. right. apply elem_of_cons. by left. }
  destruct (fan_out_feeds_single_chain "2024-01-01 00:00:00" CHAINS two_up
              empty_world "Ethereum" 0%float 200
              (one_point (TvlNumber 250%float)) 100%float ConnectionError
              (reflexivity _) Ethereum_supported eq_refl eq_refl eq_refl eq_refl)
    as (Hworld & _ & Hsummary & _).
  split; [exact Hworld|]. split; [|exact Hlisted].
  apply Hsummary; [exact Hlisted|reflexivity].
Defined.


Lemma csv_fails_only_without_data_witness :
  (usable_chains CHAINS all_down empty_world = []
   ∧ (get_tvl_csv CHAINS all_down empty_world).1
     = respond 500 (ErrorBody "No data available to export"))
  ∨ (usable_chains CHAINS all_down empty_world ≠ []
     ∧ status_code (get_tvl_csv CHAINS all_down empty_world).1 = 200
     ∧ ∃ rows, body (get_tvl_csv CHAINS all_down empty_world).1 = CsvBody rows).
Proof.
  exact (csv_fails_only_without_data CHAINS all_down empty_world (reflexivity _)).
Defined.

Lemma csv_rows_are_the_frames_rows_witness :
  length (response_rows (get_tvl_csv CHAINS two_up empty_world).1) = 2%nat.
Proof.
  destruct (csv_rows_are_the_frames_rows CHAINS two_up empty_world
              reference_lexsort_perm (reflexivity _)) as (_ & Hlen & _).
  rewrite Hlen. reflexivity.
Defined.

Lemma csv_and_all_cover_same_chains_witness :
  (∃ row, row ∈ response_rows (get_tvl_csv CHAINS two_up empty_world).1
          ∧ c_chain row = "Solana")
  ↔ (∃ s, s ∈ response_chains
                (get_all_tvl "2024-01-01 00:00:00" CHAINS two_up empty_world).1
          ∧ s_chain s = "Solana").
Proof.
  exact (csv_and_all_cover_same_chains "2024-01-01 00:00:00" CHAINS two_up
           empty_world reference_lexsort_perm (reflexivity _) "Solana").
Defined.
